(** * katagogo, package game: the rule configuration (rules.go)

    A shallow embedding of [src/game/rules.go] and the properties of its
    specification.  Go values are modelled as the code has them:

    - [int] is a 64-bit two's complement integer, here a [Z] with the
      wrap-around written out ([wrap64]);
    - [float32] is an IEEE 754 binary32 number, here the standard library's
      [spec_float] at precision 24 and maximal exponent 128;
    - [string] is a sequence of bytes, here [string];
    - [error] is [nil] or a value carrying a message, here [option string];
    - [*Rules] is [nil] or the address of a [Rules] object in a store
      ([gmap loc Rules]); methods with a pointer receiver run in a small
      state monad over that store, in which dereferencing [nil] panics. *)

From Stdlib Require Import ZArith String Ascii List Bool Lia.
From Stdlib Require Import Floats.SpecFloat.
From Stdlib Require Import DecimalString.
From stdpp Require Import base gmap strings.

Open Scope string_scope.
Open Scope Z_scope.

(** ** The parts of the Go runtime and library the file relies on *)

(** What Go leaves to the implementation, and the Unicode tables of the
    standard library, which are not part of the repository. *)
Class Platform := {
  (** [int(f)] for a [float32] that is NaN, infinite or out of the range
      of [int]: "the behavior is implementation-dependent". *)
  float_to_int_unspecified : spec_float -> Z;
  (** [strings.TrimFunc(s, unicode.IsSpace)], the slow path of
      [strings.TrimSpace] taken at the first non-ASCII byte. *)
  unicode_TrimFunc_IsSpace : string -> string;
  (** [strings.TrimRightFunc(s, unicode.IsSpace)]. *)
  unicode_TrimRightFunc_IsSpace : string -> string;
  (** [strings.Map(unicode.ToLower, s)], the slow path of
      [strings.ToLower] for strings that are not pure ASCII. *)
  unicode_Map_ToLower : string -> string
}.

Module GoString.

Definition byte_of (c : ascii) : Z := Z.of_N (N_of_ascii c).

(** [utf8.RuneSelf]: bytes below it are single-byte runes. *)
Definition RuneSelf : Z := 128.

(** The table [asciiSpace] of package strings. *)
Definition asciiSpace (c : ascii) : bool :=
  let b := byte_of c in
  (b =? 9) || (b =? 10) || (b =? 11) || (b =? 12) || (b =? 13) || (b =? 32).

Fixpoint rev_string (acc s : string) : string :=
  match s with
  | EmptyString => acc
  | String c s' => rev_string (String c acc) s'
  end.

(** The second loop of [TrimSpace], run on the reversed remainder:
    [inl r] when an ASCII non-space byte (or the start) is reached,
    [inr r] when a non-ASCII byte is met first; [r] is what is left. *)
Fixpoint trim_left_ascii (s : string) : string + string :=
  match s with
  | EmptyString => inl EmptyString
  | String c s' =>
      if RuneSelf <=? byte_of c then inr s
      else if asciiSpace c then trim_left_ascii s'
      else inl s
  end.

Fixpoint isASCII (s : string) : bool :=
  match s with
  | EmptyString => true
  | String c s' => (byte_of c <? RuneSelf) && isASCII s'
  end.

Definition lower_byte (c : ascii) : ascii :=
  let b := byte_of c in
  if (65 <=? b) && (b <=? 90)
  then ascii_of_N (Z.to_N (b + 32)) else c.

Fixpoint map_bytes (f : ascii -> ascii) (s : string) : string :=
  match s with
  | EmptyString => EmptyString
  | String c s' => String (f c) (map_bytes f s')
  end.

Section WithPlatform.
Context `{Platform}.

Definition trim_right (s : string) : string :=
  match trim_left_ascii (rev_string EmptyString s) with
  | inl r => rev_string EmptyString r
  | inr r => unicode_TrimRightFunc_IsSpace (rev_string EmptyString r)
  end.

(** [strings.TrimSpace]: the ASCII fast path, falling back to the
    Unicode-aware functions at the first non-ASCII byte. *)
Fixpoint TrimSpace (s : string) : string :=
  match s with
  | EmptyString => EmptyString
  | String c s' =>
      if RuneSelf <=? byte_of c then unicode_TrimFunc_IsSpace s
      else if asciiSpace c then TrimSpace s'
      else trim_right s
  end.

(** [strings.ToLower]. *)
Definition ToLower (s : string) : string :=
  if isASCII s then map_bytes lower_byte s else unicode_Map_ToLower s.

End WithPlatform.

(** [strings.ReplaceAll(s, old, new)] for a non-empty [old]: the
    non-overlapping occurrences of [old], from the left, become [new].
    [skip] counts the bytes of a matched [old] still to be dropped. *)
Fixpoint replace_from (old new : string) (skip : nat) (s : string) : string :=
  match s with
  | EmptyString => EmptyString
  | String c s' =>
      match skip with
      | S k => replace_from old new k s'
      | O =>
          if String.prefix old s
          then new +:+ replace_from old new (Nat.pred (String.length old)) s'
          else String c (replace_from old new O s')
      end
  end.

Definition ReplaceAll (s old new : string) : string :=
  replace_from old new O s.

(** [strings.Contains(s, substr)]. *)
Fixpoint Contains (s substr : string) : bool :=
  String.prefix substr s ||
  match s with
  | EmptyString => false
  | String _ s' => Contains s' substr
  end.

End GoString.

(** ** Errors *)

(** A Go [error]: [None] is [nil], [Some msg] an error whose [Error()]
    text is [msg]. *)
Definition error := option string.

Definition errors_New (msg : string) : error := Some msg.

(** [fmt.Errorf("%s is not a valid rule key", k)]. *)
Definition fmt_Errorf_not_valid_key (k : string) : error :=
  Some (k +:+ " is not a valid rule key").

Definition is_nil_error (e : error) : bool :=
  match e with None => true | Some _ => false end.

(** ** Rule enumerations *)

Definition KO_SIMPLE : Z := 0.
Definition KO_POSITIONAL : Z := 1.
Definition KO_SITUATIONAL : Z := 2.
Definition KO_SPIGHT : Z := 3.

Definition SCORE_AREA : Z := 0.
Definition SCORE_TERRITORY : Z := 1.

Definition TAX_NONE : Z := 0.
Definition TAX_SEKI : Z := 1.
Definition TAX_ALL : Z := 2.

Definition WHB_ZERO : Z := 0.
Definition WHB_N : Z := 1.
Definition WHB_N_MINUS_ONE : Z := 2.

Definition MIN_USER_KOMI : Z := -150.
Definition MAX_USER_KOMI : Z := 150.

Definition koRuleStrings : list string :=
  ["SIMPLE"; "POSITIONAL"; "SITUATIONAL"; "SPIGHT"].

Definition scoringRuleStrings : list string := ["AREA"; "TERRITORY"].

Definition taxRuleStrings : list string := ["NONE"; "SEKI"; "ALL"].

Definition whiteHandicapBonusStrings : list string := ["ZERO"; "N"; "N-1"].

Definition parseKoRule (s : string) : Z * error :=
  if String.eqb s "SIMPLE" then (KO_SIMPLE, None)
  else if String.eqb s "POSITIONAL" then (KO_POSITIONAL, None)
  else if String.eqb s "SITUATIONAL" then (KO_SITUATIONAL, None)
  else if String.eqb s "SPIGHT" then (KO_SPIGHT, None)
  else (-1, errors_New "invalid Ko Rule").

Definition parseScoringRule (s : string) : Z * error :=
  if String.eqb s "AREA" then (SCORE_AREA, None)
  else if String.eqb s "TERRITORY" then (SCORE_TERRITORY, None)
  else (-1, errors_New "invalid Scoring Rule").

Definition parseTaxRule (s : string) : Z * error :=
  if String.eqb s "NONE" then (TAX_NONE, None)
  else if String.eqb s "SEKI" then (TAX_SEKI, None)
  else if String.eqb s "ALL" then (TAX_ALL, None)
  else (-1, errors_New "invalid Tax Rule").

Definition parseWhiteHandicapBonus (s : string) : Z * error :=
  if String.eqb s "ZERO" then (WHB_ZERO, None)
  else if String.eqb s "N" then (WHB_N, None)
  else if String.eqb s "N-1" then (WHB_N_MINUS_ONE, None)
  else (-1, errors_New "invalid White Handicap Bonus").

Definition writeKoRule (koRule : Z) : string :=
  if koRule =? KO_SIMPLE then "SIMPLE"
  else if koRule =? KO_POSITIONAL then "POSITIONAL"
  else if koRule =? KO_SITUATIONAL then "SITUATIONAL"
  else if koRule =? KO_SPIGHT then "SPIGHT"
  else "UNKNOWN".

Definition writeScoringRule (scoringRule : Z) : string :=
  if scoringRule =? SCORE_AREA then "AREA"
  else if scoringRule =? SCORE_TERRITORY then "TERRITORY"
  else "UNKNOWN".

Definition writeTaxRule (taxRule : Z) : string :=
  if taxRule =? TAX_NONE then "NONE"
  else if taxRule =? TAX_SEKI then "SEKI"
  else if taxRule =? TAX_ALL then "ALL"
  else "UNKNOWN".

Definition writeWhiteHandicapBonus (whiteHandicapBonus : Z) : string :=
  if whiteHandicapBonus =? WHB_ZERO then "ZERO"
  else if whiteHandicapBonus =? WHB_N then "N"
  else if whiteHandicapBonus =? WHB_N_MINUS_ONE then "N-1"
  else "UNKNOWN".

(** The variants of each enumeration, as declared by the [iota] blocks. *)
Definition koRules : list Z :=
  [KO_SIMPLE; KO_POSITIONAL; KO_SITUATIONAL; KO_SPIGHT].
Definition scoringRules : list Z := [SCORE_AREA; SCORE_TERRITORY].
Definition taxRules : list Z := [TAX_NONE; TAX_SEKI; TAX_ALL].
Definition whiteHandicapBonuses : list Z :=
  [WHB_ZERO; WHB_N; WHB_N_MINUS_ONE].

(** ** Numbers: [int] and [float32] *)

Module GoInt.

Definition min_int : Z := - 2 ^ 63.
Definition max_int : Z := 2 ^ 63 - 1.

Definition in_range (z : Z) : bool := (min_int <=? z) && (z <=? max_int).

(** Arithmetic on [int] wraps around in two's complement. *)
Definition wrap64 (z : Z) : Z := (z + 2 ^ 63) mod 2 ^ 64 - 2 ^ 63.

Definition mul (a b : Z) : Z := wrap64 (a * b).

End GoInt.

Module Float32.

Definition prec : Z := 24.
Definition emax : Z := 128.

Definition float32 := spec_float.

(** The [float32] nearest to [m * 2^e] (ties to even): how a constant
    such as [7.5] or an [int] becomes a [float32]. *)
Definition of_dyadic (m e : Z) : float32 :=
  binary_normalize prec emax m e false.

(** The conversion [float32(z)] of an [int]. *)
Definition of_int (z : Z) : float32 := of_dyadic z 0.

Definition mul (x y : float32) : float32 := SFmul prec emax x y.

(** The comparison [==]. *)
Definition eqb (x y : float32) : bool := SFeqb x y.

(** The conversion [float64(x)], exact. *)
Definition to_float64 (x : float32) : spec_float :=
  match x with
  | S754_finite s m e => binary_round 53 1024 s m e
  | _ => x
  end.

(** [math.IsInf(f, sign)]. *)
Definition IsInf (f : spec_float) (sign : Z) : bool :=
  match f with
  | S754_infinity s => ((0 <=? sign) && negb s) || ((sign <=? 0) && s)
  | _ => false
  end.

(** The value with its fraction discarded, where there is a value. *)
Definition truncate (x : float32) : option Z :=
  match x with
  | S754_zero _ => Some 0
  | S754_finite s m e =>
      Some (cond_Zopp s (if 0 <=? e then Z.pos m * 2 ^ e
                         else Z.pos m / 2 ^ (- e)))
  | _ => None
  end.

(** The conversion [int(x)]: the fraction is discarded; a value that
    an [int] cannot hold converts as the implementation pleases. *)
Definition to_int `{Platform} (x : float32) : Z :=
  match truncate x with
  | Some z =>
      if GoInt.in_range z then z
      else GoInt.wrap64 (float_to_int_unspecified x)
  | None => GoInt.wrap64 (float_to_int_unspecified x)
  end.

(** A [float32] as the hardware has it: a normal or subnormal number
    in canonical form, a zero, an infinity or a NaN. *)
Definition valid (x : float32) : bool := valid_binary prec emax x.

(** The value of [x] is an integer. *)
Definition integral (x : float32) : bool :=
  match x with
  | S754_zero _ => true
  | S754_finite _ m e => (0 <=? e) || (Z.pos m mod 2 ^ (- e) =? 0)
  | _ => false
  end.

End Float32.

Abbreviation float32 := Float32.float32.

(** ** [strconv.FormatFloat(float64(x), 'f', -1, 32)]

    The library function, which is not part of the repository, by its
    contract: with the precision -1 it writes the least number of digits
    that still identify the [float32], and of those decimals the one
    nearest to it; the format ['f'] writes them without an exponent. *)

Module Strconv.

(** The numbers that round to [m * 2^e]: those between the midpoints
    to its two neighbours, the midpoints included when [m] is even.
    All three are numerators over the denominator [den]. *)
Record interval := {
  num_val : Z; num_lower : Z; num_upper : Z; den : Z; inclusive : bool
}.

Definition rounding_interval (m : positive) (e : Z) : interval :=
  let up := 2 ^ Z.max e 0 in
  let lowstep :=
    if (Z.pos m =? 2 ^ 23) && (-149 <? e) then 1 else 2 in
  {| num_val := 4 * Z.pos m * up;
     num_lower := (4 * Z.pos m - lowstep) * up;
     num_upper := (4 * Z.pos m + 2) * up;
     den := 4 * 2 ^ Z.max (- e) 0;
     inclusive := Z.even (Z.pos m) |}.

(** The shortest decimal [n * 10^q] in the interval, nearest to the
    value: walk the decimal positions [q] downwards and stop at the
    first where rounding the value down or up stays inside. *)
Fixpoint shortest_from (fuel : nat) (q : Z) (i : interval) : Z * Z :=
  let b := 10 ^ Z.max (- q) 0 in
  let unit := 10 ^ Z.max q 0 * den i in
  let v := num_val i * b in
  let n := v / unit in
  let down := n * unit in
  let up := (n + 1) * unit in
  let okdown :=
    (num_lower i * b <? down) || (inclusive i && (num_lower i * b =? down)) in
  let okup :=
    (up <? num_upper i * b) || (inclusive i && (up =? num_upper i * b)) in
  if okdown && okup then
    match 2 * (v - down) ?= unit with
    | Lt => (n, q)
    | Gt => (n + 1, q)
    | Eq => if Z.even n then (n, q) else (n + 1, q)
    end
  else if okdown then (n, q)
  else if okup then (n + 1, q)
  else match fuel with
       | O => (n, q)
       | S fuel' => shortest_from fuel' (q - 1) i
       end.

Definition shortest (m : positive) (e : Z) : Z * Z :=
  let i := rounding_interval m e in
  let q0 := Z.log2 (num_upper i / den i + 1) + 1 in
  shortest_from (Z.to_nat (q0 - Z.min e 0 + 1)) q0 i.

Definition digits (z : Z) : string :=
  NilZero.string_of_uint (N.to_uint (Z.to_N z)).

Fixpoint zeros (k : nat) : string :=
  match k with
  | O => EmptyString
  | S k' => String "0" (zeros k')
  end.

(** The format [%f] of the decimal [n * 10^q] with as many digits
    after the point as it has. *)
Definition fmtF (n q : Z) : string :=
  if 0 <=? q then digits (n * 10 ^ q)
  else
    let frac := digits (n mod 10 ^ (- q)) in
    digits (n / 10 ^ (- q)) +:+ "." +:+
    zeros (Z.to_nat (- q) - String.length frac) +:+ frac.

Definition FormatFloat32 (x : float32) : string :=
  match x with
  | S754_nan => "NaN"
  | S754_infinity false => "+Inf"
  | S754_infinity true => "-Inf"
  | S754_zero false => "0"
  | S754_zero true => "-0"
  | S754_finite s m e =>
      let '(n, q) := shortest m e in
      (if s then "-" else "") +:+ fmtF n q
  end.

End Strconv.

(** ** The ruleset *)

Record Rules := mkRules {
  KoRule : Z;
  ScoringRule : Z;
  TaxRule : Z;
  WhiteHandicapBonus : Z;
  MultiStoneSuicide : bool;
  HasButton : bool;
  FriendlyPassOk : bool;
  Komi : float32
}.

(** The assignments [r.Field = v]. *)
Definition set_KoRule (v : Z) (r : Rules) : Rules :=
  mkRules v (ScoringRule r) (TaxRule r) (WhiteHandicapBonus r)
          (MultiStoneSuicide r) (HasButton r) (FriendlyPassOk r) (Komi r).

Definition set_ScoringRule (v : Z) (r : Rules) : Rules :=
  mkRules (KoRule r) v (TaxRule r) (WhiteHandicapBonus r)
          (MultiStoneSuicide r) (HasButton r) (FriendlyPassOk r) (Komi r).

Definition set_TaxRule (v : Z) (r : Rules) : Rules :=
  mkRules (KoRule r) (ScoringRule r) v (WhiteHandicapBonus r)
          (MultiStoneSuicide r) (HasButton r) (FriendlyPassOk r) (Komi r).

Definition set_WhiteHandicapBonus (v : Z) (r : Rules) : Rules :=
  mkRules (KoRule r) (ScoringRule r) (TaxRule r) v
          (MultiStoneSuicide r) (HasButton r) (FriendlyPassOk r) (Komi r).

Definition set_MultiStoneSuicide (v : bool) (r : Rules) : Rules :=
  mkRules (KoRule r) (ScoringRule r) (TaxRule r) (WhiteHandicapBonus r)
          v (HasButton r) (FriendlyPassOk r) (Komi r).

Definition set_HasButton (v : bool) (r : Rules) : Rules :=
  mkRules (KoRule r) (ScoringRule r) (TaxRule r) (WhiteHandicapBonus r)
          (MultiStoneSuicide r) v (FriendlyPassOk r) (Komi r).

Definition set_FriendlyPassOk (v : bool) (r : Rules) : Rules :=
  mkRules (KoRule r) (ScoringRule r) (TaxRule r) (WhiteHandicapBonus r)
          (MultiStoneSuicide r) (HasButton r) v (Komi r).

Definition set_Komi (v : float32) (r : Rules) : Rules :=
  mkRules (KoRule r) (ScoringRule r) (TaxRule r) (WhiteHandicapBonus r)
          (MultiStoneSuicide r) (HasButton r) (FriendlyPassOk r) v.

(** The komi constants of the file, as [float32]. *)
Definition komi_6_0 : float32 := Float32.of_dyadic 6 0.
Definition komi_6_5 : float32 := Float32.of_dyadic 13 (-1).
Definition komi_7_0 : float32 := Float32.of_dyadic 7 0.
Definition komi_7_5 : float32 := Float32.of_dyadic 15 (-1).


(** ** Methods that only read the receiver

    They take the [Rules] value the receiver points to. *)

Definition EqualsIgnoringKomi (r other : Rules) : bool :=
  (KoRule r =? KoRule other) &&
  (ScoringRule r =? ScoringRule other) &&
  (TaxRule r =? TaxRule other) &&
  (WhiteHandicapBonus r =? WhiteHandicapBonus other) &&
  Bool.eqb (MultiStoneSuicide r) (MultiStoneSuicide other) &&
  Bool.eqb (HasButton r) (HasButton other) &&
  Bool.eqb (FriendlyPassOk r) (FriendlyPassOk other).

Section Komi.
Context `{Platform}.

Definition GameResultWillBeInteger (r : Rules) : bool :=
  let komiIsInteger :=
    Float32.eqb (Float32.of_int (Float32.to_int (Komi r))) (Komi r) in
  negb (Bool.eqb komiIsInteger (HasButton r)).

Definition komiIsIntOrHalfInt (komi : float32) : bool :=
  negb (Float32.IsInf (Float32.to_float64 komi) 0) &&
  Float32.eqb (Float32.mul komi (Float32.of_int 2))
              (Float32.of_int (GoInt.mul (Float32.to_int komi) 2)).

End Komi.

(** ** [strings.Builder] and the display strings *)

Module Builder.
Definition t := string.
Definition empty : t := EmptyString.
Definition WriteString (sb : t) (s : string) : t := sb +:+ s.
Definition String (sb : t) : string := sb.
End Builder.

Definition ToStringNoKomi (r : Rules) : string :=
  let sb := Builder.empty in
  let sb := Builder.WriteString sb "Ko Rule: " in
  let sb := Builder.WriteString sb (writeKoRule (KoRule r)) in
  let sb := Builder.WriteString sb ", Scoring Rule: " in
  let sb := Builder.WriteString sb (writeScoringRule (ScoringRule r)) in
  let sb := Builder.WriteString sb ", Tax Rule: " in
  let sb := Builder.WriteString sb (writeTaxRule (TaxRule r)) in
  let sb := Builder.WriteString sb ", White Handicap Bonus: " in
  let sb :=
    Builder.WriteString sb (writeWhiteHandicapBonus (WhiteHandicapBonus r)) in
  let sb :=
    if MultiStoneSuicide r
    then Builder.WriteString sb ", Suicide Allowed" else sb in
  let sb :=
    if HasButton r then Builder.WriteString sb ", Has Button" else sb in
  let sb :=
    if negb (WhiteHandicapBonus r =? WHB_ZERO) then
      let sb := Builder.WriteString sb ", White Handicap Bonus: " in
      Builder.WriteString sb (writeWhiteHandicapBonus (WhiteHandicapBonus r))
    else sb in
  let sb :=
    if FriendlyPassOk r
    then Builder.WriteString sb ", Friendly Pass OK" else sb in
  Builder.String sb.

Definition ToString (r : Rules) : string :=
  let sb := Builder.empty in
  let sb := Builder.WriteString sb (ToStringNoKomi r) in
  let sb := Builder.WriteString sb ", Komi: " in
  let sb := Builder.WriteString sb (Strconv.FormatFloat32 (Komi r)) in
  Builder.String sb.

Definition stringToBool (s : string) : bool * error :=
  if String.eqb s "true" || String.eqb s "True" then (true, None)
  else if String.eqb s "false" || String.eqb s "False" then (false, None)
  else (false, errors_New "input should be 'true' or 'false'").

(** ** The store of [Rules] objects and methods that allocate or write *)

Definition loc := positive.

(** A [*Rules]. *)
Inductive pointer := nil | addr (l : loc).

Abbreviation store := (gmap loc Rules).

Inductive outcome (A : Type) :=
| Done (a : A) (st : store)
| Panic.
Arguments Done {A} a st.
Arguments Panic {A}.

Definition M (A : Type) : Type := store -> outcome A.

Definition ret {A} (a : A) : M A := fun st => Done a st.

Definition bind {A B} (m : M A) (k : A -> M B) : M B :=
  fun st => match m st with
            | Done a st' => k a st'
            | Panic => Panic
            end.

Notation "'let*' x := m 'in' k" := (bind m (fun x => k))
  (at level 10, x name, m at level 100, k at level 200).
Notation "m ;;; k" := (bind m (fun _ => k))
  (at level 100, k at level 200, right associativity).

(** [&Rules{...}]: a new object at an address not in use. *)
Definition new (v : Rules) : M pointer :=
  fun st => let l := fresh (dom st) in Done (addr l) (<[l := v]> st).

(** [*p], panicking on [nil]. *)
Definition load (p : pointer) : M Rules :=
  fun st => match p with
            | nil => Panic
            | addr l => match st !! l with
                        | Some v => Done v st
                        | None => Panic
                        end
            end.

(** [p.Field = v], as the update [f] of the object, panicking on [nil]. *)
Definition assign (p : pointer) (f : Rules -> Rules) : M unit :=
  fun st => match p with
            | nil => Panic
            | addr l => match st !! l with
                        | Some v => Done tt (<[l := f v]> st)
                        | None => Panic
                        end
            end.

Definition GetTrompTaylorish (r : pointer) : M pointer :=
  new {| KoRule := KO_POSITIONAL;
         ScoringRule := SCORE_AREA;
         TaxRule := TAX_NONE;
         MultiStoneSuicide := false;
         HasButton := false;
         WhiteHandicapBonus := WHB_ZERO;
         FriendlyPassOk := false;
         Komi := komi_7_5 |}.

Definition GetSimpleTerritory (r : pointer) : M pointer :=
  new {| KoRule := KO_SIMPLE;
         ScoringRule := SCORE_TERRITORY;
         TaxRule := TAX_SEKI;
         MultiStoneSuicide := false;
         HasButton := false;
         WhiteHandicapBonus := WHB_ZERO;
         FriendlyPassOk := false;
         Komi := komi_7_5 |}.

Definition UpdateRules (r : pointer) (k v : string) : M (pointer * error) :=
  if String.eqb k "ko" then
    let '(newVal, err) := parseKoRule v in
    if negb (is_nil_error err) then ret (nil, err)
    else assign r (set_KoRule newVal) ;;; ret (r, None)
  else if String.eqb k "score" then
    ret (r, None)
  else if String.eqb k "scoring" then
    let '(newVal, err) := parseScoringRule v in
    if negb (is_nil_error err) then ret (nil, err)
    else assign r (set_ScoringRule newVal) ;;; ret (r, None)
  else if String.eqb k "tax" then
    let '(newVal, err) := parseTaxRule v in
    if negb (is_nil_error err) then ret (nil, err)
    else assign r (set_TaxRule newVal) ;;; ret (r, None)
  else if String.eqb k "suicide" then
    let '(newVal, err) := stringToBool v in
    if negb (is_nil_error err) then ret (nil, err)
    else assign r (set_MultiStoneSuicide newVal) ;;; ret (r, None)
  else if String.eqb k "hasButton" then
    let '(newVal, err) := stringToBool v in
    if negb (is_nil_error err) then ret (nil, err)
    else assign r (set_HasButton newVal) ;;; ret (r, None)
  else if String.eqb k "whiteHandicapBonus" then
    let '(newVal, err) := parseWhiteHandicapBonus v in
    if negb (is_nil_error err) then ret (nil, err)
    else assign r (set_WhiteHandicapBonus newVal) ;;; ret (r, None)
  else if String.eqb k "friendlyPassOk" then
    let '(newVal, err) := stringToBool v in
    if negb (is_nil_error err) then ret (nil, err)
    else assign r (set_FriendlyPassOk newVal) ;;; ret (r, None)
  else
    ret (nil, fmt_Errorf_not_valid_key k).

Section Presets.
Context `{Platform}.

(** The preset name as [parseRulesHelper] compares it. *)
Definition normalize (s : string) : string :=
  let s := GoString.TrimSpace s in
  let s := GoString.ReplaceAll s "-" "" in
  let s := GoString.ReplaceAll s "_" "" in
  let s := GoString.ReplaceAll s " " "" in
  GoString.ToLower s.

Definition parseRulesHelper (r : pointer) (s : string) : M pointer :=
  let s := normalize s in
  if String.eqb s "japanese" || String.eqb s "korean" then
    new {| KoRule := KO_SIMPLE;
           ScoringRule := SCORE_TERRITORY;
           TaxRule := TAX_SEKI;
           MultiStoneSuicide := false;
           HasButton := false;
           WhiteHandicapBonus := WHB_ZERO;
           FriendlyPassOk := false;
           Komi := komi_6_5 |}
  else if String.eqb s "chinese" then
    new {| KoRule := KO_SIMPLE;
           ScoringRule := SCORE_AREA;
           TaxRule := TAX_NONE;
           MultiStoneSuicide := false;
           HasButton := false;
           WhiteHandicapBonus := WHB_N;
           FriendlyPassOk := false;
           Komi := komi_7_5 |}
  else if String.eqb s "chineseogs" || String.eqb s "chinesekgs" then
    new {| KoRule := KO_POSITIONAL;
           ScoringRule := SCORE_AREA;
           TaxRule := TAX_NONE;
           MultiStoneSuicide := false;
           HasButton := false;
           WhiteHandicapBonus := WHB_N;
           FriendlyPassOk := true;
           Komi := komi_7_5 |}
  else if String.eqb s "ancientarea" || String.eqb s "stonescoring" then
    new {| KoRule := KO_SIMPLE;
           ScoringRule := SCORE_AREA;
           TaxRule := TAX_ALL;
           MultiStoneSuicide := false;
           HasButton := false;
           WhiteHandicapBonus := WHB_ZERO;
           FriendlyPassOk := true;
           Komi := komi_7_5 |}
  else if String.eqb s "ancientterritory" then
    new {| KoRule := KO_SIMPLE;
           ScoringRule := SCORE_TERRITORY;
           TaxRule := TAX_ALL;
           MultiStoneSuicide := false;
           HasButton := false;
           WhiteHandicapBonus := WHB_ZERO;
           FriendlyPassOk := false;
           Komi := komi_6_5 |}
  else if String.eqb s "agabutton" then
    new {| KoRule := KO_SITUATIONAL;
           ScoringRule := SCORE_AREA;
           TaxRule := TAX_NONE;
           MultiStoneSuicide := false;
           HasButton := true;
           WhiteHandicapBonus := WHB_N_MINUS_ONE;
           FriendlyPassOk := true;
           Komi := komi_7_0 |}
  else if String.eqb s "aga" || String.eqb s "bga" || String.eqb s "french" then
    new {| KoRule := KO_SITUATIONAL;
           ScoringRule := SCORE_AREA;
           TaxRule := TAX_NONE;
           MultiStoneSuicide := false;
           HasButton := false;
           WhiteHandicapBonus := WHB_N_MINUS_ONE;
           FriendlyPassOk := true;
           Komi := komi_7_5 |}
  else if String.eqb s "newzealand" || String.eqb s "nz" then
    new {| KoRule := KO_SITUATIONAL;
           ScoringRule := SCORE_AREA;
           TaxRule := TAX_NONE;
           MultiStoneSuicide := true;
           HasButton := false;
           WhiteHandicapBonus := WHB_ZERO;
           FriendlyPassOk := true;
           Komi := komi_7_5 |}
  else if String.eqb s "goe" || String.eqb s "ing" then
    new {| KoRule := KO_POSITIONAL;
           ScoringRule := SCORE_AREA;
           TaxRule := TAX_NONE;
           MultiStoneSuicide := true;
           HasButton := false;
           WhiteHandicapBonus := WHB_ZERO;
           FriendlyPassOk := true;
           Komi := komi_7_5 |}
  else GetTrompTaylorish r.

Definition ParseRules (r : pointer) (s : string) : M pointer :=
  parseRulesHelper r s.

Definition ParseRulesWithoutKomi (r : pointer) (s : string) (komi : float32)
  : M pointer :=
  let* rules := parseRulesHelper r s in
  assign rules (set_Komi komi) ;;;
  ret rules.

End Presets.

(** The preset names [parseRulesHelper] knows, after normalization. *)
Definition presetNames : list string :=
  ["japanese"; "korean"; "chinese"; "chineseogs"; "chinesekgs";
   "ancientarea"; "stonescoring"; "ancientterritory"; "agabutton";
   "aga"; "bga"; "french"; "newzealand"; "nz"; "goe"; "ing"].

Definition TrompTaylorish : Rules :=
  mkRules KO_POSITIONAL SCORE_AREA TAX_NONE WHB_ZERO false false false komi_7_5.

Definition Chinese : Rules :=
  mkRules KO_SIMPLE SCORE_AREA TAX_NONE WHB_N false false false komi_7_5.

(** The keys [UpdateRules] has a case for. *)
Definition updateKeys : list string :=
  ["ko"; "score"; "scoring"; "tax"; "suicide"; "hasButton";
   "whiteHandicapBonus"; "friendlyPassOk"].

(** An error carries a text when its message contains it. *)
Definition carries (e : error) (text : string) : Prop :=
  exists msg, e = Some msg /\ GoString.Contains msg text = true.

(** A platform to run the examples on: conversions that overflow give
    the smallest [int], as on amd64; the Unicode paths, which no example
    reaches, are left as the identity. *)
Definition example_platform : Platform :=
  {| float_to_int_unspecified := fun _ => GoInt.min_int;
     unicode_TrimFunc_IsSpace := fun s => s;
     unicode_TrimRightFunc_IsSpace := fun s => s;
     unicode_Map_ToLower := fun s => s |}.

(** The clause of the white handicap bonus. *)
Definition whbClause (r : Rules) : string :=
  ", White Handicap Bonus: " +:+ writeWhiteHandicapBonus (WhiteHandicapBonus r).

(** What a call leaves in the object it returns, if it returns one. *)
Definition returned (o : outcome pointer) : option Rules :=
  match o with
  | Done (addr l) st' => st' !! l
  | _ => None
  end.

(** A call that returns and leaves every object of [st] as it was. *)
Definition preserves {A} (st : store) (o : outcome A) : Prop :=
  match o with
  | Done _ st' => forall l rs, st !! l = Some rs -> st' !! l = Some rs
  | Panic => False
  end.

(** The integers from [lo] up to, not including, [hi]. *)
Definition Zrange (lo hi : Z) : list Z :=
  map (fun n => lo + Z.of_nat n) (seq 0 (Z.to_nat (hi - lo))).

(** A mantissa with nothing shifted out of it yet. *)
Definition exact_record (m : Z) : shr_record :=
  {| shr_m := m; shr_r := false; shr_s := false |}.

(** [m] at the exponent [e] is in canonical form. *)
Definition canonical (prec emax : Z) (m : positive) (e : Z) : Prop :=
  fexp prec emax (Z.pos (digits2_pos m) + e) = e.

(** ** Further definitions used by the properties below *)

(** [CustomRules]: the constructor; it returns a [Rules] value, not a
    pointer, and does not read its receiver. *)
Definition CustomRules (r : pointer)
    (koRule scoreRule taxRule whbRule : Z) (suicide button passOk : bool)
    (komi : float32) : Rules :=
  {| KoRule := koRule;
     ScoringRule := scoreRule;
     TaxRule := taxRule;
     WhiteHandicapBonus := whbRule;
     MultiStoneSuicide := suicide;
     HasButton := button;
     FriendlyPassOk := passOk;
     Komi := komi |}.

(** [Close]: the destructor, which does nothing. *)
Definition Close (r : pointer) : M unit := ret tt.

(** The four enumeration fields hold variants. *)
Definition variantFields (r : Rules) : Prop :=
  In (KoRule r) koRules /\ In (ScoringRule r) scoringRules /\
  In (TaxRule r) taxRules /\ In (WhiteHandicapBonus r) whiteHandicapBonuses.

(** The updates of one object [UpdateRules] can make under the key [k]:
    none, or the assignment of the field the key names. *)
Definition writes_field (k : string) (f : Rules -> Rules) : Prop :=
  f = id \/
  (k = "ko" /\ exists a, f = set_KoRule a) \/
  (k = "scoring" /\ exists a, f = set_ScoringRule a) \/
  (k = "tax" /\ exists a, f = set_TaxRule a) \/
  (k = "suicide" /\ exists a, f = set_MultiStoneSuicide a) \/
  (k = "hasButton" /\ exists a, f = set_HasButton a) \/
  (k = "whiteHandicapBonus" /\ exists a, f = set_WhiteHandicapBonus a) \/
  (k = "friendlyPassOk" /\ exists a, f = set_FriendlyPassOk a).

(** Every ruleset with variants in its enumeration fields, at the komi
    [komi]. *)
Definition allVariantRules (komi : float32) : list Rules :=
  flat_map (fun ko =>
  flat_map (fun sc =>
  flat_map (fun tax =>
  flat_map (fun whb =>
  flat_map (fun su =>
  flat_map (fun bu =>
  map (fun fp => mkRules ko sc tax whb su bu fp komi)
      [false; true]) [false; true]) [false; true])
      whiteHandicapBonuses) taxRules) scoringRules) koRules.

(** [s] without the bytes equal to [c]. *)
Fixpoint remove_byte (c : ascii) (s : string) : string :=
  match s with
  | EmptyString => EmptyString
  | String x s' =>
      if Ascii.eqb x c then remove_byte c s' else String x (remove_byte c s')
  end.

(** The only white space in [s] is the blank: no tab, line feed,
    vertical tab, form feed or carriage return. *)
Fixpoint blanks_only (s : string) : bool :=
  match s with
  | EmptyString => true
  | String x s' =>
      (negb (GoString.asciiSpace x) || Ascii.eqb x " ") && blanks_only s'
  end.

(** [s] without hyphens, underscores and blanks. *)
Definition strip_separators (s : string) : string :=
  remove_byte " " (remove_byte "_" (remove_byte "-" s)).

(** The bytes of a string with the ASCII letters lowered. *)
Abbreviation lower := (GoString.map_bytes GoString.lower_byte).

(** * Properties *)

(** ** Enumerations: parsing and writing *)

Lemma eqb_false_of_neq (s t : string) : s <> t -> String.eqb s t = false.
Proof. intros Hne. now apply String.eqb_neq. Qed.

Ltac not_in_tokens H :=
  let Heq := fresh "Heq" in
  repeat (rewrite eqb_false_of_neq;
          [| intros Heq; apply H; rewrite Heq; simpl; tauto ]).

(** C6: for each of the four enumerations and every variant [v] of it,
    parsing the canonical string written for [v] gives [v] back, with a
    nil error. *)
Theorem parse_write_roundtrip :
  (forall v, In v koRules -> parseKoRule (writeKoRule v) = (v, None)) /\
  (forall v, In v scoringRules ->
             parseScoringRule (writeScoringRule v) = (v, None)) /\
  (forall v, In v taxRules -> parseTaxRule (writeTaxRule v) = (v, None)) /\
  (forall v, In v whiteHandicapBonuses ->
             parseWhiteHandicapBonus (writeWhiteHandicapBonus v) = (v, None)).
Proof.
  repeat split; intros v Hin; simpl in Hin;
    repeat (destruct Hin as [<- | Hin]; [reflexivity |]);
    contradiction.
Qed.

Lemma parse_write_roundtrip_witness :
  parseKoRule (writeKoRule KO_SPIGHT) = (KO_SPIGHT, None) /\
  parseScoringRule (writeScoringRule SCORE_TERRITORY) = (SCORE_TERRITORY, None) /\
  parseTaxRule (writeTaxRule TAX_ALL) = (TAX_ALL, None) /\
  parseWhiteHandicapBonus (writeWhiteHandicapBonus WHB_N_MINUS_ONE)
  = (WHB_N_MINUS_ONE, None).
Proof.
  destruct parse_write_roundtrip as (Hk & Hs & Ht & Hw).
  split; [| split; [| split]].
  - apply Hk. simpl. tauto.
  - apply Hs. simpl. tauto.
  - apply Ht. simpl. tauto.
  - apply Hw. simpl. tauto.
Defined.

(** The canonical strings are exactly what the writers produce for the
    variants, in order. *)
Lemma write_variants_are_tokens :
  map writeKoRule koRules = koRuleStrings /\
  map writeScoringRule scoringRules = scoringRuleStrings /\
  map writeTaxRule taxRules = taxRuleStrings /\
  map writeWhiteHandicapBonus whiteHandicapBonuses = whiteHandicapBonusStrings.
Proof. repeat split. Qed.

(** C7, as the code has it: for each enumeration, every text that is not
    one of its canonical tokens (a token in the wrong case included) is
    rejected with the value -1 and an error whose message is fixed by
    the rule category alone; the message is the same whatever the
    rejected text. *)
Theorem parse_rejects_non_tokens (s : string) :
  (~ In s koRuleStrings ->
   parseKoRule s = (-1, errors_New "invalid Ko Rule")) /\
  (~ In s scoringRuleStrings ->
   parseScoringRule s = (-1, errors_New "invalid Scoring Rule")) /\
  (~ In s taxRuleStrings ->
   parseTaxRule s = (-1, errors_New "invalid Tax Rule")) /\
  (~ In s whiteHandicapBonusStrings ->
   parseWhiteHandicapBonus s = (-1, errors_New "invalid White Handicap Bonus")).
Proof.
  repeat split; intros Hnot.
  - unfold parseKoRule. not_in_tokens Hnot. reflexivity.
  - unfold parseScoringRule. not_in_tokens Hnot. reflexivity.
  - unfold parseTaxRule. not_in_tokens Hnot. reflexivity.
  - unfold parseWhiteHandicapBonus. not_in_tokens Hnot. reflexivity.
Qed.

Lemma not_in_dec (s : string) (l : list string) :
  forallb (fun t => negb (String.eqb s t)) l = true -> ~ In s l.
Proof.
  intros Hall Hin. rewrite forallb_forall in Hall.
  specialize (Hall s Hin). now rewrite String.eqb_refl in Hall.
Qed.

Lemma parse_rejects_non_tokens_witness :
  parseKoRule "simple" = (-1, errors_New "invalid Ko Rule") /\
  parseScoringRule "simple" = (-1, errors_New "invalid Scoring Rule") /\
  parseTaxRule "simple" = (-1, errors_New "invalid Tax Rule") /\
  parseWhiteHandicapBonus "simple"
  = (-1, errors_New "invalid White Handicap Bonus").
Proof.
  destruct (parse_rejects_non_tokens "simple") as (Hk & Hs & Ht & Hw).
  split; [| split; [| split]].
  - apply Hk, not_in_dec. reflexivity.
  - apply Hs, not_in_dec. reflexivity.
  - apply Ht, not_in_dec. reflexivity.
  - apply Hw, not_in_dec. reflexivity.
Defined.

(** C7 as stated fails: the lower-case text [simple] is rejected by
    [parseKoRule], yet the error does not carry it. *)
Lemma parse_error_omits_rejected_text :
  ~ (forall s, ~ In s koRuleStrings ->
               carries (snd (parseKoRule s)) s /\
               carries (snd (parseKoRule s)) "Ko Rule").
Proof.
  intros Hall.
  destruct (Hall "simple") as [(msg & Hmsg & Hin) _].
  - apply not_in_dec. reflexivity.
  - vm_compute in Hmsg. injection Hmsg as <-. vm_compute in Hin. discriminate.
Qed.

(** The error does name the category. *)
Lemma parse_error_names_category (s : string) :
  ~ In s koRuleStrings -> carries (snd (parseKoRule s)) "Ko Rule".
Proof.
  intros Hnot. unfold parseKoRule. not_in_tokens Hnot.
  eexists. split; reflexivity.
Qed.

(** ** Updates by key *)

(** C2: for every receiver and every value text, valid token or not, the
    key [score] succeeds: the error is nil, the receiver is returned and
    no object of the store, the receiver included, is changed. *)
Theorem UpdateRules_score_no_action (r : pointer) (v : string) (st : store) :
  UpdateRules r "score" v st = Done (r, None) st.
Proof. reflexivity. Qed.

Lemma assign_allocated (l : loc) (rs : Rules) (f : Rules -> Rules) (st : store) :
  st !! l = Some rs -> assign (addr l) f st = Done tt (<[l := f rs]> st).
Proof. intros Hl. unfold assign. now rewrite Hl. Qed.

(** C3: on a receiver holding [rs], the update [suicide := true]
    succeeds, returns the receiver and leaves it with MultiStoneSuicide
    set and every other field as in [rs]; [suicide := maybe] fails with
    the invalid-boolean error and [bogusKey := x] with an error naming
    the key, both leaving the store, and so every field of the
    receiver, as it was. *)
Theorem UpdateRules_suicide_and_unknown_key
    (l : loc) (rs : Rules) (st : store) :
  st !! l = Some rs ->
  UpdateRules (addr l) "suicide" "true" st
  = Done (addr l, None)
         (<[l := mkRules (KoRule rs) (ScoringRule rs) (TaxRule rs)
                         (WhiteHandicapBonus rs) true (HasButton rs)
                         (FriendlyPassOk rs) (Komi rs)]> st) /\
  UpdateRules (addr l) "suicide" "maybe" st
  = Done (nil, errors_New "input should be 'true' or 'false'") st /\
  UpdateRules (addr l) "bogusKey" "x" st
  = Done (nil, Some "bogusKey is not a valid rule key") st.
Proof.
  intros Hl. split; [| split].
  - unfold UpdateRules; simpl. unfold bind.
    rewrite (assign_allocated l rs _ st Hl). reflexivity.
  - reflexivity.
  - reflexivity.
Qed.

Lemma UpdateRules_suicide_and_unknown_key_witness :
  let st : store := {[ 1%positive := TrompTaylorish ]} in
  UpdateRules (addr 1%positive) "suicide" "true" st
  = Done (addr 1%positive, None)
         (<[1%positive := mkRules KO_POSITIONAL SCORE_AREA TAX_NONE WHB_ZERO
                                  true false false komi_7_5]> st) /\
  UpdateRules (addr 1%positive) "suicide" "maybe" st
  = Done (nil, errors_New "input should be 'true' or 'false'") st /\
  UpdateRules (addr 1%positive) "bogusKey" "x" st
  = Done (nil, Some "bogusKey is not a valid rule key") st.
Proof.
  intros st.
  apply (UpdateRules_suicide_and_unknown_key 1%positive TrompTaylorish st).
  reflexivity.
Defined.

(** Every key without a case is refused, the error naming it. *)
Lemma UpdateRules_unknown_key (r : pointer) (k v : string) (st : store) :
  ~ In k updateKeys ->
  UpdateRules r k v st = Done (nil, fmt_Errorf_not_valid_key k) st.
Proof.
  intros Hnot. unfold UpdateRules. not_in_tokens Hnot. reflexivity.
Qed.

Lemma parse_outcome_cases {A} (res : A * error) :
  (exists a, res = (a, None)) \/ (exists a msg, res = (a, Some msg)).
Proof. destruct res as [a [msg|]]; eauto. Qed.

Ltac update_case parsed r st :=
  let E := fresh "E" in
  destruct (parse_outcome_cases parsed) as [(a & ->) | (a & msg & ->)];
  simpl;
  [ unfold bind, assign, ret;
    destruct r as [| l]; [left; reflexivity |];
    destruct (st !! l) eqn:E;
    [ left; split; reflexivity
    | right; exists l; split; [reflexivity | exact E] ]
  | right; unfold ret; repeat split; congruence ].

(** Whenever [UpdateRules] returns, either the error is nil and the
    pointer returned is the receiver, or the error is not nil and the
    pointer returned is [nil] (the store is then unchanged, and a caller
    that dereferences the returned pointer panics).  It fails to return
    only when the receiver itself cannot be dereferenced. *)
Lemma UpdateRules_pointer_and_error
    (r : pointer) (k v : string) (st : store) :
  match UpdateRules r k v st with
  | Done (p, err) st' =>
      (err = None /\ p = r) \/
      (err <> None /\ p = nil /\ st' = st /\ load p st' = Panic (A := Rules))
  | Panic => r = nil \/ exists l, r = addr l /\ st !! l = None
  end.
Proof.
  unfold UpdateRules.
  destruct (String.eqb k "ko"); [update_case (parseKoRule v) r st |].
  destruct (String.eqb k "score"); [left; split; reflexivity |].
  destruct (String.eqb k "scoring"); [update_case (parseScoringRule v) r st |].
  destruct (String.eqb k "tax"); [update_case (parseTaxRule v) r st |].
  destruct (String.eqb k "suicide"); [update_case (stringToBool v) r st |].
  destruct (String.eqb k "hasButton"); [update_case (stringToBool v) r st |].
  destruct (String.eqb k "whiteHandicapBonus");
    [update_case (parseWhiteHandicapBonus v) r st |].
  destruct (String.eqb k "friendlyPassOk");
    [update_case (stringToBool v) r st |].
  right. unfold ret, fmt_Errorf_not_valid_key. repeat split; congruence.
Qed.

Ltac bad_value parsed :=
  let Herr := fresh "Herr" in
  intros Herr; unfold UpdateRules; simpl;
  destruct parsed as [? [? |]]; simpl in *; [reflexivity | congruence].

Ltac good_value parsed Hl :=
  let Herr := fresh "Herr" in
  intros Herr; unfold UpdateRules; simpl;
  destruct parsed as [? [? |]]; simpl in *; [discriminate |];
  unfold bind; rewrite (assign_allocated _ _ _ _ Hl); reflexivity.

(** C9: [UpdateRules] fails, with an error that is not nil, for every
    key it has no case for and for every key of a field whose value its
    parser refuses; each time the pointer returned is [nil], not the
    receiver, and nothing is written, so a caller that ignores the error
    and dereferences what was returned panics.  The receiver is
    returned, with a nil error, exactly in the other case: a value that
    parses (or the key [score]) on a receiver that points to a
    ruleset. *)
Theorem UpdateRules_returns_nil_on_failure
    (r : pointer) (k v : string) (st : store) :
  (~ In k updateKeys ->
   UpdateRules r k v st = Done (nil, fmt_Errorf_not_valid_key k) st) /\
  ((snd (parseKoRule v) <> None ->
    UpdateRules r "ko" v st = Done (nil, snd (parseKoRule v)) st) /\
   (snd (parseScoringRule v) <> None ->
    UpdateRules r "scoring" v st = Done (nil, snd (parseScoringRule v)) st) /\
   (snd (parseTaxRule v) <> None ->
    UpdateRules r "tax" v st = Done (nil, snd (parseTaxRule v)) st) /\
   (snd (parseWhiteHandicapBonus v) <> None ->
    UpdateRules r "whiteHandicapBonus" v st
    = Done (nil, snd (parseWhiteHandicapBonus v)) st) /\
   (snd (stringToBool v) <> None ->
    UpdateRules r "suicide" v st = Done (nil, snd (stringToBool v)) st /\
    UpdateRules r "hasButton" v st = Done (nil, snd (stringToBool v)) st /\
    UpdateRules r "friendlyPassOk" v st
    = Done (nil, snd (stringToBool v)) st)) /\
  (forall (l : loc) (rs : Rules),
      st !! l = Some rs ->
      (snd (parseKoRule v) = None ->
       UpdateRules (addr l) "ko" v st
       = Done (addr l, None) (<[l := set_KoRule (fst (parseKoRule v)) rs]> st)) /\
      (snd (parseScoringRule v) = None ->
       UpdateRules (addr l) "scoring" v st
       = Done (addr l, None)
              (<[l := set_ScoringRule (fst (parseScoringRule v)) rs]> st)) /\
      (snd (parseTaxRule v) = None ->
       UpdateRules (addr l) "tax" v st
       = Done (addr l, None) (<[l := set_TaxRule (fst (parseTaxRule v)) rs]> st)) /\
      (snd (parseWhiteHandicapBonus v) = None ->
       UpdateRules (addr l) "whiteHandicapBonus" v st
       = Done (addr l, None)
              (<[l := set_WhiteHandicapBonus
                        (fst (parseWhiteHandicapBonus v)) rs]> st)) /\
      (snd (stringToBool v) = None ->
       UpdateRules (addr l) "suicide" v st
       = Done (addr l, None)
              (<[l := set_MultiStoneSuicide (fst (stringToBool v)) rs]> st) /\
       UpdateRules (addr l) "hasButton" v st
       = Done (addr l, None)
              (<[l := set_HasButton (fst (stringToBool v)) rs]> st) /\
       UpdateRules (addr l) "friendlyPassOk" v st
       = Done (addr l, None)
              (<[l := set_FriendlyPassOk (fst (stringToBool v)) rs]> st))) /\
  match UpdateRules r k v st with
  | Done (p, err) st' =>
      (err = None /\ p = r) \/
      (err <> None /\ p = nil /\ st' = st /\ load p st' = Panic (A := Rules))
  | Panic => r = nil \/ exists l, r = addr l /\ st !! l = None
  end.
Proof.
  split; [apply UpdateRules_unknown_key | split; [| split]].
  - split; [| split; [| split; [| split]]].
    + bad_value (parseKoRule v).
    + bad_value (parseScoringRule v).
    + bad_value (parseTaxRule v).
    + bad_value (parseWhiteHandicapBonus v).
    + intros Herr. split; [| split]; revert Herr.
      * bad_value (stringToBool v).
      * bad_value (stringToBool v).
      * bad_value (stringToBool v).
  - intros l rs Hl. split; [| split; [| split; [| split]]].
    + good_value (parseKoRule v) Hl.
    + good_value (parseScoringRule v) Hl.
    + good_value (parseTaxRule v) Hl.
    + good_value (parseWhiteHandicapBonus v) Hl.
    + intros Herr. split; [| split]; revert Herr.
      * good_value (stringToBool v) Hl.
      * good_value (stringToBool v) Hl.
      * good_value (stringToBool v) Hl.
  - apply UpdateRules_pointer_and_error.
Qed.

Lemma UpdateRules_returns_nil_on_failure_witness :
  let st : store := {[ 1%positive := Chinese ]} in
  UpdateRules (addr 1%positive) "bogusKey" "maybe" st
  = Done (nil, Some "bogusKey is not a valid rule key") st /\
  UpdateRules (addr 1%positive) "ko" "maybe" st
  = Done (nil, Some "invalid Ko Rule") st /\
  UpdateRules (addr 1%positive) "hasButton" "maybe" st
  = Done (nil, Some "input should be 'true' or 'false'") st /\
  UpdateRules (addr 1%positive) "tax" "ALL" st
  = Done (addr 1%positive, None)
         (<[1%positive := set_TaxRule TAX_ALL Chinese]> st).
Proof.
  intros st.
  destruct (UpdateRules_returns_nil_on_failure (addr 1%positive)
              "bogusKey" "maybe" st)
    as (Hkey & (Hko & _ & _ & _ & Hbool) & _ & _).
  destruct (UpdateRules_returns_nil_on_failure (addr 1%positive)
              "bogusKey" "ALL" st)
    as (_ & _ & Hgood & _).
  destruct (Hgood 1%positive Chinese) as (_ & _ & Htax & _); [reflexivity |].
  split; [| split; [| split]].
  - apply Hkey, not_in_dec. reflexivity.
  - apply Hko. discriminate.
  - apply Hbool. discriminate.
  - apply Htax. reflexivity.
Defined.

(** A recognized key whose value does not parse fails, as an unknown key
    does: the failures of C9 do occur. *)
Lemma UpdateRules_bad_value_fails (r : pointer) (st : store) :
  UpdateRules r "ko" "spight" st = Done (nil, errors_New "invalid Ko Rule") st /\
  UpdateRules r "hasButton" "yes" st
  = Done (nil, errors_New "input should be 'true' or 'false'") st.
Proof. split; reflexivity. Qed.

(** ** Display strings *)

Lemma append_assoc (a b c : string) : (a +:+ b) +:+ c = a +:+ (b +:+ c).
Proof.
  induction a as [| x a IH]; [reflexivity |].
  change (String x ((a +:+ b) +:+ c) = String x (a +:+ (b +:+ c))).
  now rewrite IH.
Qed.

Lemma append_empty_r (a : string) : a +:+ "" = a.
Proof.
  induction a as [| x a IH]; [reflexivity |].
  change (String x (a +:+ "") = String x a).
  now rewrite IH.
Qed.

Lemma komi_7_5_formats : Strconv.FormatFloat32 komi_7_5 = "7.5".
Proof. vm_compute. reflexivity. Qed.

(** The formatter on values whose shortest decimals are well known:
    0.1, 10^11 (not a [float32]; its neighbour is written back as 10^11),
    the largest finite [float32] and the smallest positive one. *)
Lemma FormatFloat32_known_values :
  Strconv.FormatFloat32 (Float32.of_dyadic 13421773 (-27)) = "0.1" /\
  Strconv.FormatFloat32 (Float32.of_int 100000000000) = "100000000000" /\
  Strconv.FormatFloat32 (Float32.of_dyadic (2 ^ 24 - 1) 104)
  = "340282350000000000000000000000000000000" /\
  Strconv.FormatFloat32 (Float32.of_dyadic 1 (-149))
  = "0.000000000000000000000000000000000000000000001".
Proof. vm_compute. repeat split. Qed.

Lemma komi_constants_format :
  Strconv.FormatFloat32 komi_6_0 = "6" /\
  Strconv.FormatFloat32 komi_6_5 = "6.5" /\
  Strconv.FormatFloat32 komi_7_0 = "7".
Proof. vm_compute. repeat split. Qed.

(** C4: the display string of the object [GetTrompTaylorish] returns is
    exactly the one given; and when the white handicap bonus is not
    [WHB_ZERO] the display string has the bonus clause twice, in this
    order: ko rule, scoring rule, tax rule, bonus clause, suicide (if
    allowed), button (if any), bonus clause again, friendly pass (if
    allowed), komi. *)
Theorem ToString_default_and_duplicate_clause :
  (forall (r : pointer) (st : store),
      exists rs st',
        (let* p := GetTrompTaylorish r in load p) st = Done rs st' /\
        ToString rs =
        "Ko Rule: POSITIONAL, Scoring Rule: AREA, Tax Rule: NONE, White Handicap Bonus: ZERO, Komi: 7.5") /\
  (forall r : Rules,
      WhiteHandicapBonus r <> WHB_ZERO ->
      ToString r =
      "Ko Rule: " +:+ writeKoRule (KoRule r) +:+
      ", Scoring Rule: " +:+ writeScoringRule (ScoringRule r) +:+
      ", Tax Rule: " +:+ writeTaxRule (TaxRule r) +:+
      whbClause r +:+
      (if MultiStoneSuicide r then ", Suicide Allowed" else "") +:+
      (if HasButton r then ", Has Button" else "") +:+
      whbClause r +:+
      (if FriendlyPassOk r then ", Friendly Pass OK" else "") +:+
      ", Komi: " +:+ Strconv.FormatFloat32 (Komi r)).
Proof.
  split.
  - intros r st. unfold bind, GetTrompTaylorish, new, load.
    rewrite lookup_insert_eq. eexists _, _. split; [reflexivity |].
    vm_compute. reflexivity.
  - intros r Hwhb. unfold ToString, ToStringNoKomi, whbClause, Builder.String,
      Builder.WriteString, Builder.empty.
    apply Z.eqb_neq in Hwhb. rewrite Hwhb. simpl negb. cbv iota.
    destruct (MultiStoneSuicide r), (HasButton r), (FriendlyPassOk r);
      rewrite ?append_assoc, ?append_empty_r; simpl; reflexivity.
Qed.

Lemma ToString_default_and_duplicate_clause_witness :
  ToString Chinese =
  "Ko Rule: SIMPLE, Scoring Rule: AREA, Tax Rule: NONE, White Handicap Bonus: N, White Handicap Bonus: N, Komi: 7.5".
Proof.
  destruct ToString_default_and_duplicate_clause as [_ Hdup].
  rewrite (Hdup Chinese); [vm_compute; reflexivity |].
  vm_compute. discriminate.
Defined.

(** With the bonus at [WHB_ZERO] the clause is written once. *)
Lemma ToString_zero_bonus (r : Rules) :
  WhiteHandicapBonus r = WHB_ZERO ->
  ToString r =
  "Ko Rule: " +:+ writeKoRule (KoRule r) +:+
  ", Scoring Rule: " +:+ writeScoringRule (ScoringRule r) +:+
  ", Tax Rule: " +:+ writeTaxRule (TaxRule r) +:+
  ", White Handicap Bonus: ZERO" +:+
  (if MultiStoneSuicide r then ", Suicide Allowed" else "") +:+
  (if HasButton r then ", Has Button" else "") +:+
  (if FriendlyPassOk r then ", Friendly Pass OK" else "") +:+
  ", Komi: " +:+ Strconv.FormatFloat32 (Komi r).
Proof.
  intros Hwhb. unfold ToString, ToStringNoKomi, Builder.String,
    Builder.WriteString, Builder.empty.
  rewrite Hwhb. simpl negb. cbv iota.
  destruct (MultiStoneSuicide r), (HasButton r), (FriendlyPassOk r);
    rewrite ?append_assoc, ?append_empty_r; simpl; reflexivity.
Qed.

(** ** Presets *)

Lemma fresh_unused (st : store) : st !! fresh (dom st) = None.
Proof. apply not_elem_of_dom, is_fresh. Qed.

Lemma returned_new (v : Rules) (st : store) : returned (new v st) = Some v.
Proof. unfold returned, new. apply lookup_insert_eq. Qed.

Lemma preserves_new (v : Rules) (st : store) : preserves st (new v st).
Proof.
  unfold preserves, new. intros l rs Hl.
  rewrite lookup_insert_ne; [exact Hl |].
  intros <-. rewrite fresh_unused in Hl. discriminate.
Qed.

Section PresetFacts.
Context `{Platform}.

(** [parseRulesHelper] allocates one object, whose contents are fixed
    by the name alone. *)
Lemma parseRulesHelper_new (s : string) :
  exists rs, forall (r : pointer) (st : store),
      parseRulesHelper r s st = new rs st.
Proof.
  unfold parseRulesHelper, GetTrompTaylorish.
  repeat match goal with
         | |- context [if ?b then _ else _] =>
             destruct b; [eexists; intros; reflexivity |]
         end.
  eexists; intros; reflexivity.
Qed.

Lemma parseRulesHelper_unmatched (r : pointer) (s : string) (st : store) :
  ~ In (normalize s) presetNames ->
  parseRulesHelper r s st = new TrompTaylorish st.
Proof.
  intros Hnot. unfold parseRulesHelper. not_in_tokens Hnot. reflexivity.
Qed.

Lemma ParseRulesWithoutKomi_new (s : string) (komi : float32) :
  exists rs, forall (r : pointer) (st : store),
      parseRulesHelper r s st = new rs st /\
      ParseRulesWithoutKomi r s komi st = new (set_Komi komi rs) st.
Proof.
  destruct (parseRulesHelper_new s) as [rs Hrs]. exists rs. intros r st.
  split; [apply Hrs |].
  unfold ParseRulesWithoutKomi, bind. rewrite Hrs. unfold new, assign, ret.
  rewrite lookup_insert_eq, insert_insert_eq. reflexivity.
Qed.

(** C5: resolving a preset name never fails: for every receiver, name
    and store it returns a new object and disturbs no other.  The four
    spellings of Chinese all give the Chinese preset; a name that
    matches no preset after normalization, such as the two given, gives
    the Tromp-Taylor-ish default (Positional, Area, None, no suicide, no
    button, Zero, no friendly pass, komi 7.5). *)
Theorem parseRulesHelper_total_and_presets (r : pointer) (st : store) :
  (forall s, is_Some (returned (parseRulesHelper r s st)) /\
             preserves st (parseRulesHelper r s st)) /\
  (forall s, In s ["Chinese"; "chinese"; "CHI-NESE"; "chi nese"] ->
             returned (parseRulesHelper r s st)
             = Some (mkRules KO_SIMPLE SCORE_AREA TAX_NONE WHB_N
                             false false false komi_7_5)) /\
  (forall s, ~ In (normalize s) presetNames ->
             returned (parseRulesHelper r s st)
             = Some (mkRules KO_POSITIONAL SCORE_AREA TAX_NONE WHB_ZERO
                             false false false komi_7_5)) /\
  returned (parseRulesHelper r "not-a-real-ruleset" st)
  = Some (mkRules KO_POSITIONAL SCORE_AREA TAX_NONE WHB_ZERO
                  false false false komi_7_5) /\
  returned (parseRulesHelper r "" st)
  = Some (mkRules KO_POSITIONAL SCORE_AREA TAX_NONE WHB_ZERO
                  false false false komi_7_5) /\
  Strconv.FormatFloat32 komi_7_5 = "7.5".
Proof.
  split; [| split; [| split; [| split; [| split]]]].
  - intros s. destruct (parseRulesHelper_new s) as [rs Hrs]. rewrite Hrs.
    split; [rewrite returned_new; eauto | apply preserves_new].
  - intros s Hin. simpl in Hin.
    repeat (destruct Hin as [<- | Hin]; [apply returned_new |]).
    contradiction.
  - intros s Hnot. rewrite (parseRulesHelper_unmatched r s st Hnot).
    apply returned_new.
  - apply returned_new.
  - apply returned_new.
  - apply komi_7_5_formats.
Qed.

(** C10: what [ParseRules] and [ParseRulesWithoutKomi] return is fixed
    by the name (and the komi): whatever the two receivers and the two
    stores, and so whatever the fields of the receivers, the objects
    returned hold equal rulesets.  Both calls return, and leave every
    object of the store they start from, the receiver among them, with
    all its fields as they were. *)
Theorem ParseRules_ignores_receiver
    (r1 r2 : pointer) (s : string) (komi : float32) (st1 st2 : store) :
  returned (ParseRules r1 s st1) = returned (ParseRules r2 s st2) /\
  is_Some (returned (ParseRules r1 s st1)) /\
  preserves st1 (ParseRules r1 s st1) /\
  returned (ParseRulesWithoutKomi r1 s komi st1)
  = returned (ParseRulesWithoutKomi r2 s komi st2) /\
  returned (ParseRulesWithoutKomi r1 s komi st1)
  = set_Komi komi <$> returned (ParseRules r1 s st1) /\
  preserves st1 (ParseRulesWithoutKomi r1 s komi st1).
Proof.
  destruct (ParseRulesWithoutKomi_new s komi) as [rs Hrs].
  unfold ParseRules.
  destruct (Hrs r1 st1) as [-> ->]. destruct (Hrs r2 st2) as [-> ->].
  rewrite !returned_new.
  repeat split; eauto using preserves_new.
Qed.

End PresetFacts.

Lemma parseRulesHelper_total_and_presets_witness :
  returned (parseRulesHelper (H := example_platform) nil "Tromp-Taylor" ∅)
  = Some TrompTaylorish.
Proof.
  destruct (parseRulesHelper_total_and_presets (H := example_platform) nil ∅)
    as (_ & _ & Hdefault & _).
  apply Hdefault. apply not_in_dec. vm_compute. reflexivity.
Defined.

Lemma in_Zrange (lo hi k : Z) : lo <= k < hi -> In k (Zrange lo hi).
Proof.
  intros Hk. unfold Zrange. apply in_map_iff.
  exists (Z.to_nat (k - lo)). split; [lia |].
  apply in_seq. lia.
Qed.

(** ** Rounding: the cases where [binary_round] is exact *)

Lemma iter_pos_nat {A} (f : A -> A) (n : positive) (x : A) :
  SpecFloat.iter_pos f n x = Nat.iter (Pos.to_nat n) f x.
Proof.
  revert x. induction n as [n IH | n IH |]; intros x; simpl SpecFloat.iter_pos.
  - rewrite !IH, Pos2Nat.inj_xI.
    replace (S (2 * Pos.to_nat n)) with (Pos.to_nat n + (Pos.to_nat n + 1))%nat
      by lia.
    rewrite !Nat.iter_add. reflexivity.
  - rewrite !IH, Pos2Nat.inj_xO.
    replace (2 * Pos.to_nat n)%nat with (Pos.to_nat n + Pos.to_nat n)%nat
      by lia.
    rewrite Nat.iter_add. reflexivity.
  - reflexivity.
Qed.

Lemma shr_1_iter_exact (m : positive) (k : nat) :
  Nat.iter k shr_1 (exact_record (Z.pos (Pos.shiftl_nat m k)))
  = exact_record (Z.pos m).
Proof.
  induction k as [| k IH]; [reflexivity |].
  rewrite Nat.iter_succ_r. exact IH.
Qed.

Lemma shr_exact (m : positive) (e : Z) (k : nat) :
  shr (exact_record (Z.pos (Pos.shiftl_nat m k))) e (Z.of_nat k)
  = (exact_record (Z.pos m), e + Z.of_nat k).
Proof.
  destruct k as [| k].
  - simpl. f_equal. lia.
  - change (Z.of_nat (S k)) with (Z.pos (Pos.of_succ_nat k)).
    unfold shr. rewrite iter_pos_nat, SuccNat2Pos.id_succ, shr_1_iter_exact.
    reflexivity.
Qed.

Lemma shiftl_nat_value (m : positive) (k : nat) :
  Z.pos (Pos.shiftl_nat m k) = Z.pos m * 2 ^ Z.of_nat k.
Proof.
  induction k as [| k IH]; [simpl; lia |].
  change (Pos.shiftl_nat m (S k)) with (Pos.shiftl_nat m k)~0%positive.
  rewrite Pos2Z.inj_xO, IH, Nat2Z.inj_succ, Z.pow_succ_r by lia. lia.
Qed.

Lemma shiftl_nat_digits (m : positive) (k : nat) :
  Z.pos (digits2_pos (Pos.shiftl_nat m k))
  = Z.pos (digits2_pos m) + Z.of_nat k.
Proof.
  induction k as [| k IH]; [simpl; lia |].
  change (Pos.shiftl_nat m (S k)) with (Pos.shiftl_nat m k)~0%positive.
  simpl digits2_pos. rewrite Pos2Z.inj_succ, IH. lia.
Qed.

Lemma digits2_pos_log2 (m : positive) :
  Z.pos (digits2_pos m) = Z.log2 (Z.pos m) + 1.
Proof.
  assert (Hsize : forall p, digits2_pos p = Pos.size p)
    by (induction p as [p IH | p IH |]; simpl; congruence).
  rewrite Hsize. destruct m; simpl; lia.
Qed.

Lemma digits2_pos_bounds (m : positive) :
  2 ^ (Z.pos (digits2_pos m) - 1) <= Z.pos m < 2 ^ Z.pos (digits2_pos m).
Proof.
  rewrite digits2_pos_log2.
  replace (Z.log2 (Z.pos m) + 1 - 1) with (Z.log2 (Z.pos m)) by lia.
  replace (Z.log2 (Z.pos m) + 1) with (Z.succ (Z.log2 (Z.pos m))) by lia.
  apply Z.log2_spec. lia.
Qed.

Section Round.
Variables prec emax : Z.

(** A mantissa that is [m] followed by [k] zero bits rounds to [m], the
    zero bits going into the exponent. *)
Lemma binary_round_aux_shift (s : bool) (m : positive) (e : Z) (k : nat) :
  canonical prec emax m (e + Z.of_nat k) ->
  e + Z.of_nat k <= emax - prec ->
  binary_round_aux prec emax s (Z.pos (Pos.shiftl_nat m k)) e loc_Exact
  = S754_finite s m (e + Z.of_nat k).
Proof.
  intros Hcan Hmax. unfold canonical in Hcan.
  unfold binary_round_aux, shr_fexp.
  change (shr_record_of_loc ?x loc_Exact) with (exact_record x).
  change (Zdigits2 (Z.pos ?p)) with (Z.pos (digits2_pos p)).
  rewrite shiftl_nat_digits.
  replace (Z.pos (digits2_pos m) + Z.of_nat k + e)
    with (Z.pos (digits2_pos m) + (e + Z.of_nat k)) by lia.
  rewrite Hcan.
  replace (e + Z.of_nat k - e) with (Z.of_nat k) by lia.
  rewrite shr_exact. simpl loc_of_shr_record. simpl round_nearest_even.
  simpl shr_m.
  change (Zdigits2 (Z.pos ?p)) with (Z.pos (digits2_pos p)).
  rewrite Hcan, Z.sub_diag. simpl.
  apply Z.leb_le in Hmax. rewrite Hmax. reflexivity.
Qed.

Lemma binary_round_exact (s : bool) (t : positive) (e : Z) :
  Z.pos (digits2_pos t) <= prec ->
  3 - emax - prec <= Z.pos (digits2_pos t) + e - prec <= emax - prec ->
  binary_round prec emax s t e
  = S754_finite s (Pos.shiftl_nat t (Z.to_nat (prec - Z.pos (digits2_pos t))))
                (Z.pos (digits2_pos t) + e - prec).
Proof.
  intros Hd [Hlo Hhi]. unfold binary_round.
  set (d := Z.pos (digits2_pos t)) in *.
  assert (Hfexp : fexp prec emax (d + e) = d + e - prec)
    by (unfold fexp, emin; lia).
  rewrite Hfexp. unfold shl_align.
  replace (d + e - prec - e) with (d - prec) by lia.
  destruct (d - prec) as [| q | q] eqn:Hq; try lia.
  - replace (prec - d) with 0 by lia. simpl Z.to_nat.
    replace (d + e - prec) with (e + Z.of_nat 0) by lia.
    apply (binary_round_aux_shift s t e 0).
    + unfold canonical. fold d. unfold fexp, emin in *. lia.
    + lia.
  - replace (prec - d) with (Z.pos q) by lia.
    rewrite Pos2Nat.inj_iter. fold (Pos.shiftl_nat t (Pos.to_nat q)).
    simpl Z.to_nat.
    replace (d + e - prec) with (d + e - prec + Z.of_nat 0) at 2 by lia.
    apply (binary_round_aux_shift s (Pos.shiftl_nat t (Pos.to_nat q))
                                  (d + e - prec) 0).
    + unfold canonical. rewrite shiftl_nat_digits, positive_nat_Z. fold d.
      unfold fexp, emin. lia.
    + lia.
Qed.

End Round.

Section RoundShifted.
Variables prec emax : Z.

Lemma binary_round_shifted (s : bool) (m : positive) (e : Z) (k : nat) :
  canonical prec emax m (e + Z.of_nat k) ->
  e + Z.of_nat k <= emax - prec ->
  binary_round prec emax s (Pos.shiftl_nat m k) e
  = S754_finite s m (e + Z.of_nat k).
Proof.
  intros Hcan Hmax. unfold binary_round.
  rewrite shiftl_nat_digits.
  replace (Z.pos (digits2_pos m) + Z.of_nat k + e)
    with (Z.pos (digits2_pos m) + (e + Z.of_nat k)) by lia.
  rewrite Hcan. unfold shl_align.
  replace (e + Z.of_nat k - e) with (Z.of_nat k) by lia.
  pose proof (binary_round_aux_shift prec emax s m e k Hcan Hmax) as Haux.
  destruct (Z.of_nat k) eqn:Hk; [exact Haux | exact Haux | lia].
Qed.
End RoundShifted.

(** ** Facts on [float32] *)

Lemma SFeqb_finite (s : bool) (m1 m2 : positive) (e1 e2 : Z) :
  SFeqb (S754_finite s m1 e1) (S754_finite s m2 e2)
  = (e1 =? e2) && (Z.pos m1 =? Z.pos m2).
Proof.
  unfold SFeqb, SFcompare. rewrite Pos.compare_cont_spec. simpl Pos.switch_Eq.
  change (Z.pos m1 =? Z.pos m2) with (Pos.eqb m1 m2).
  rewrite Z.eqb_compare, Pos.eqb_compare.
  destruct s, (e1 ?= e2), (m1 ?= m2)%positive; reflexivity.
Qed.

Lemma valid_finite (s : bool) (m : positive) (e : Z) :
  Float32.valid (S754_finite s m e) = true ->
  canonical 24 128 m e /\ e <= 104.
Proof.
  unfold Float32.valid, valid_binary, bounded, canonical_mantissa, canonical.
  intros Hb. apply andb_true_iff in Hb as [Hc He].
  apply Z.eqb_eq in Hc. apply Z.leb_le in He.
  split; [exact Hc | exact He].
Qed.

(** A canonical mantissa has 24 bits unless the exponent is the least. *)
Lemma canonical_cases (m : positive) (e : Z) :
  canonical 24 128 m e ->
  (Z.pos (digits2_pos m) = 24 /\ -149 <= e) \/
  (Z.pos (digits2_pos m) < 24 /\ e = -149).
Proof. unfold canonical, fexp, emin. lia. Qed.

Lemma of_int_signed (s : bool) (p : positive) :
  Float32.of_int (cond_Zopp s (Z.pos p)) = binary_round 24 128 s p 0.
Proof. destruct s; reflexivity. Qed.

Lemma pow2_shiftl_nat (m : positive) (k : Z) :
  0 <= k -> Z.pos m * 2 ^ k = Z.pos (Pos.shiftl_nat m (Z.to_nat k)).
Proof. intros Hk. rewrite shiftl_nat_value, Z2Nat.id by lia. reflexivity. Qed.

Lemma digits2_pos_quotient (m p : positive) (k : Z) :
  0 <= k -> Z.pos m / 2 ^ k = Z.pos p ->
  Z.pos (digits2_pos p) = Z.pos (digits2_pos m) - k.
Proof.
  intros Hk Hq. rewrite !digits2_pos_log2, <- Hq, <- Z.shiftr_div_pow2 by lia.
  rewrite Z.log2_shiftr by lia.
  assert (0 < Z.log2 (Z.shiftr (Z.pos m) k) \/ Z.shiftr (Z.pos m) k = 1).
  { rewrite Z.shiftr_div_pow2, Hq by lia.
    destruct p; simpl; lia. }
  assert (Hm : 2 ^ k <= Z.pos m).
  { apply Z.nlt_ge. intros Hlt.
    rewrite Z.div_small in Hq by lia. lia. }
  apply Z.log2_le_mono in Hm. rewrite Z.log2_pow2 in Hm by lia. lia.
Qed.

(** The quotient of a mantissa by a power of two gives it back exactly
    when nothing was cut off. *)
Lemma quotient_exact_iff (m p : positive) (k : Z) :
  0 <= k -> Z.pos m / 2 ^ k = Z.pos p ->
  (Z.pos (Pos.shiftl_nat p (Z.to_nat k)) =? Z.pos m)
  = (Z.pos m mod 2 ^ k =? 0).
Proof.
  intros Hk Hq. rewrite <- pow2_shiftl_nat by lia.
  pose proof (Z.div_mod (Z.pos m) (2 ^ k)) as Hdm.
  assert (0 < 2 ^ k) by (apply Z.pow_pos_nonneg; lia).
  rewrite Hq in Hdm.
  destruct (Z.eqb_spec (Z.pos m mod 2 ^ k) 0);
    [apply Z.eqb_eq | apply Z.eqb_neq]; lia.
Qed.

Lemma small_quotient_not_integral (m : positive) (k : Z) :
  0 <= k -> Z.pos m / 2 ^ k = 0 -> (Z.pos m mod 2 ^ k =? 0) = false.
Proof.
  intros Hk Hq. apply Z.eqb_neq.
  pose proof (Z.div_mod (Z.pos m) (2 ^ k)) as Hdm.
  assert (0 < 2 ^ k) by (apply Z.pow_pos_nonneg; lia).
  rewrite Hq in Hdm. lia.
Qed.

Lemma SFeqb_zero_finite (s0 s : bool) (m : positive) (e : Z) :
  SFeqb (S754_zero s0) (S754_finite s m e) = false /\
  SFeqb (S754_finite s m e) (S754_zero s0) = false.
Proof. destruct s; split; reflexivity. Qed.

(** Converting the truncation of a [float32] back gives the number
    itself exactly when its value is an integer. *)
Lemma of_int_truncate (x : float32) (z : Z) :
  Float32.valid x = true ->
  Float32.truncate x = Some z ->
  Float32.eqb (Float32.of_int z) x = Float32.integral x.
Proof.
  intros Hvalid Htrunc. destruct x as [s0 | | | s m e]; try discriminate.
  - injection Htrunc as <-. reflexivity.
  - apply valid_finite in Hvalid as [Hcan Hmax].
    pose proof (canonical_cases m e Hcan) as Hcases.
    simpl in Htrunc. injection Htrunc as <-.
    unfold Float32.eqb, Float32.integral.
    destruct (Z.leb_spec 0 e) as [Hpos | Hneg].
    + rewrite pow2_shiftl_nat, of_int_signed by lia.
      rewrite binary_round_shifted;
        rewrite ?Z2Nat.id by lia; try (simpl; lia);
        [| replace (0 + e) with e by lia; exact Hcan].
      rewrite SFeqb_finite, !Z.eqb_refl. reflexivity.
    + simpl orb.
      destruct (Z.pos m / 2 ^ (- e)) as [| p | p] eqn:Hq.
      * rewrite small_quotient_not_integral by lia.
        replace (cond_Zopp s 0) with 0 by (destruct s; reflexivity).
        apply SFeqb_zero_finite.
      * pose proof (digits2_pos_quotient m p (- e) ltac:(lia) Hq) as Hdp.
        rewrite of_int_signed, binary_round_exact by lia.
        rewrite SFeqb_finite.
        replace (24 - Z.pos (digits2_pos p)) with (- e) by lia.
        rewrite quotient_exact_iff by (lia || exact Hq).
        replace (Z.pos (digits2_pos p) + 0 - 24 =? e) with true
          by (symmetry; apply Z.eqb_eq; lia).
        reflexivity.
      * pose proof (Z.div_pos (Z.pos m) (2 ^ (- e)) ltac:(lia)
                              ltac:(apply Z.pow_pos_nonneg; lia)).
        lia.
Qed.

Section KomiInteger.
Context `{Platform}.

Lemma to_int_in_range (x : float32) (z : Z) :
  Float32.truncate x = Some z -> GoInt.in_range z = true ->
  Float32.to_int x = z.
Proof. intros Ht Hr. unfold Float32.to_int. now rewrite Ht, Hr. Qed.

(** The test of [GameResultWillBeInteger] on a komi that an [int] can
    hold: the komi is an integer. *)
Lemma komi_roundtrip_integral (x : float32) (z : Z) :
  Float32.valid x = true ->
  Float32.truncate x = Some z -> GoInt.in_range z = true ->
  Float32.eqb (Float32.of_int (Float32.to_int x)) x = Float32.integral x.
Proof.
  intros Hv Ht Hr. rewrite (to_int_in_range x z Ht Hr).
  now apply of_int_truncate.
Qed.
End KomiInteger.

Lemma wrap64_in_range (z : Z) : GoInt.in_range z = true -> GoInt.wrap64 z = z.
Proof.
  unfold GoInt.in_range, GoInt.wrap64, GoInt.min_int, GoInt.max_int.
  intros Hr. apply andb_true_iff in Hr as [Hlo Hhi].
  apply Z.leb_le in Hlo, Hhi.
  rewrite Z.mod_small; lia.
Qed.

Lemma shiftl_nat_xO (m : positive) (k : nat) :
  Pos.shiftl_nat m (S k) = Pos.shiftl_nat m~0 k.
Proof.
  apply Pos2Z.inj. rewrite !shiftl_nat_value, Pos2Z.inj_xO, Nat2Z.inj_succ.
  rewrite Z.pow_succ_r by lia. lia.
Qed.

(** Doubling a [float32] below the largest exponent is exact. *)
Lemma mul_two (s : bool) (m : positive) (e : Z) :
  Float32.valid (S754_finite s m e) = true -> e <= 103 ->
  Float32.mul (S754_finite s m e) (Float32.of_int 2)
  = if Z.pos (digits2_pos m) =? 24 then S754_finite s m (e + 1)
    else S754_finite s m~0 (-149).
Proof.
  intros Hvalid He. apply valid_finite in Hvalid as [Hcan _].
  change (Float32.of_int 2) with (S754_finite false 8388608 (-22)).
  unfold Float32.mul, SFmul, Float32.prec, Float32.emax.
  rewrite xorb_false_r.
  assert (Hmul : (m * 8388608)%positive = Pos.shiftl_nat m 23).
  { apply Pos2Z.inj. rewrite shiftl_nat_value, Pos2Z.inj_mul. reflexivity. }
  rewrite Hmul.
  destruct (canonical_cases m e Hcan) as [[Hd Hlo] | [Hd ->]].
  - rewrite Hd. simpl Z.eqb. cbv iota.
    rewrite (binary_round_aux_shift 24 128 s m (e + -22) 23).
    + f_equal. lia.
    + unfold canonical, fexp, emin. lia.
    + lia.
  - replace (Z.pos (digits2_pos m) =? 24) with false
      by (symmetry; apply Z.eqb_neq; lia).
    rewrite shiftl_nat_xO.
    rewrite (binary_round_aux_shift 24 128 s m~0 (-149 + -22) 22).
    + reflexivity.
    + unfold canonical, fexp, emin. simpl digits2_pos.
      rewrite Pos2Z.inj_succ. lia.
    + lia.
Qed.

Lemma to_float64_finite (s : bool) (m : positive) (e : Z) :
  Float32.valid (S754_finite s m e) = true ->
  Float32.IsInf (Float32.to_float64 (S754_finite s m e)) 0 = false.
Proof.
  intros Hvalid. apply valid_finite in Hvalid as [Hcan Hmax].
  pose proof (canonical_cases m e Hcan) as Hcases.
  unfold Float32.to_float64. rewrite binary_round_exact by lia.
  reflexivity.
Qed.

Lemma pow2_exponent_bound (a e : Z) :
  0 < a -> 0 <= e -> a * 2 ^ e <= 2 ^ 63 -> e <= 63.
Proof.
  intros Ha He Hle. apply Z.nlt_ge. intros Hlt.
  assert (2 ^ 64 <= 2 ^ e) by (apply Z.pow_le_mono_r; lia).
  assert (2 ^ 63 < 2 ^ 64) by reflexivity.
  nia.
Qed.

Lemma in_range_abs (s : bool) (a : Z) :
  0 <= a -> GoInt.in_range (cond_Zopp s a) = true -> a <= 2 ^ 63.
Proof.
  unfold GoInt.in_range, GoInt.min_int, GoInt.max_int.
  intros Ha Hr. apply andb_true_iff in Hr as [Hlo Hhi].
  apply Z.leb_le in Hlo, Hhi. destruct s; simpl in *; lia.
Qed.

Lemma cond_Zopp_mul (s : bool) (a b : Z) :
  cond_Zopp s a * b = cond_Zopp s (a * b).
Proof. destruct s; simpl; lia. Qed.

Section KomiHalfInteger.
Context `{Platform}.

(** What [komiIsIntOrHalfInt] computes, for every komi such that
    [int(komi) * 2] does not overflow: whether the komi is an integer. *)
Lemma komiIsIntOrHalfInt_integral (x : float32) (z : Z) :
  Float32.valid x = true ->
  Float32.truncate x = Some z ->
  GoInt.in_range z = true -> GoInt.in_range (z * 2) = true ->
  komiIsIntOrHalfInt x = Float32.integral x.
Proof.
  intros Hvalid Htrunc Hr Hr2. unfold komiIsIntOrHalfInt.
  rewrite (to_int_in_range x z Htrunc Hr).
  unfold GoInt.mul. rewrite (wrap64_in_range _ Hr2).
  destruct x as [s0 | | | s m e]; try discriminate.
  - injection Htrunc as <-. destruct s0; reflexivity.
  - rewrite (to_float64_finite s m e Hvalid). cbn [negb andb].
    pose proof Hvalid as Hv.
    apply valid_finite in Hv as [Hcan Hmax].
    pose proof (canonical_cases m e Hcan) as Hcases.
    simpl in Htrunc. injection Htrunc as <-.
    unfold Float32.eqb, Float32.integral.
    destruct (Z.leb_spec 0 e) as [Hpos | Hneg].
    + rewrite cond_Zopp_mul in Hr2 |- *.
      assert (Hdouble : Z.pos m * 2 ^ e * 2 = Z.pos m * 2 ^ (e + 1))
        by (rewrite (Z.pow_add_r 2 e 1) by lia; lia).
      rewrite Hdouble in Hr2 |- *.
      apply in_range_abs in Hr2; [| apply Z.mul_nonneg_nonneg; lia].
      apply pow2_exponent_bound in Hr2; try lia.
      rewrite mul_two by (lia || exact Hvalid).
      replace (Z.pos (digits2_pos m) =? 24) with true
        by (symmetry; apply Z.eqb_eq; lia).
      rewrite pow2_shiftl_nat, of_int_signed by lia.
      rewrite binary_round_shifted;
        rewrite ?Z2Nat.id by lia; try (simpl; lia);
        [| unfold canonical, fexp, emin; lia].
      rewrite SFeqb_finite, !Z.eqb_refl.
      replace (e + 1 =? 0 + (e + 1)) with true
        by (symmetry; apply Z.eqb_eq; lia).
      reflexivity.
    + cbn [orb]. rewrite mul_two by (lia || exact Hvalid).
      destruct (Z.pos m / 2 ^ (- e)) as [| p | p] eqn:Hq.
      * rewrite small_quotient_not_integral by lia.
        replace (cond_Zopp s 0 * 2) with 0 by (destruct s; reflexivity).
        destruct (Z.pos (digits2_pos m) =? 24); apply SFeqb_zero_finite.
      * pose proof (digits2_pos_quotient m p (- e) ltac:(lia) Hq) as Hdp.
        replace (Z.pos (digits2_pos m) =? 24) with true
          by (symmetry; apply Z.eqb_eq; lia).
        rewrite cond_Zopp_mul.
        replace (Z.pos p * 2) with (Z.pos p~0) by lia.
        assert (Hd2 : Z.pos (digits2_pos p~0) = Z.pos (digits2_pos p) + 1)
          by (simpl digits2_pos; lia).
        rewrite of_int_signed, binary_round_exact by lia.
        rewrite SFeqb_finite, Hd2.
        replace (24 - (Z.pos (digits2_pos p) + 1)) with (- e - 1) by lia.
        replace (Pos.shiftl_nat p~0 (Z.to_nat (- e - 1)))
          with (Pos.shiftl_nat p (Z.to_nat (- e))).
        2:{ replace (Z.to_nat (- e)) with (S (Z.to_nat (- e - 1))) by lia.
            apply shiftl_nat_xO. }
        rewrite (Z.eqb_sym (Z.pos m)), quotient_exact_iff
          by (lia || exact Hq).
        replace (e + 1 =? Z.pos (digits2_pos p) + 1 + 0 - 24) with true
          by (symmetry; apply Z.eqb_eq; lia).
        reflexivity.
      * pose proof (Z.div_pos (Z.pos m) (2 ^ (- e)) ltac:(lia)
                              ltac:(apply Z.pow_pos_nonneg; lia)).
        lia.
Qed.
End KomiHalfInteger.

(** The [float32] of an odd number of halves: it is exact, its
    truncation drops the half, and it is not an integer. *)
Lemma half_integer_float (s : bool) (p : positive) :
  Z.pos p mod 2 = 1 -> Z.pos p < 2 ^ 24 ->
  let x := binary_round 24 128 s p (-1) in
  Float32.valid x = true /\
  Float32.truncate x = Some (cond_Zopp s (Z.pos p / 2)) /\
  Float32.integral x = false.
Proof.
  intros Hodd Hlt x. subst x.
  pose proof (digits2_pos_bounds p) as [Hlo _].
  assert (Hd : Z.pos (digits2_pos p) <= 24).
  { assert (Z.pos (digits2_pos p) - 1 < 24); [| lia].
    apply (Z.pow_lt_mono_r_iff 2); lia. }
  rewrite binary_round_exact by lia.
  set (j := 24 - Z.pos (digits2_pos p)).
  assert (Hj : 0 <= j) by (unfold j; lia).
  assert (Hc : 0 < 2 ^ j) by (apply Z.pow_pos_nonneg; lia).
  assert (Hexp : - (Z.pos (digits2_pos p) + -1 - 24) = j + 1) by (unfold j; lia).
  assert (Hpow : 2 ^ (j + 1) = 2 * 2 ^ j)
    by (rewrite Z.pow_add_r by lia; lia).
  split; [| split].
  - unfold Float32.valid, valid_binary, bounded, canonical_mantissa.
    rewrite shiftl_nat_digits, Z2Nat.id by lia.
    apply andb_true_iff. split; [apply Z.eqb_eq | apply Z.leb_le].
    + unfold fexp, emin, Float32.prec, Float32.emax. lia.
    + unfold Float32.prec, Float32.emax. lia.
  - unfold Float32.truncate.
    replace (0 <=? Z.pos (digits2_pos p) + -1 - 24) with false
      by (symmetry; apply Z.leb_gt; lia).
    rewrite Hexp, Hpow, shiftl_nat_value, Z2Nat.id by lia.
    rewrite Z.div_mul_cancel_r by lia. reflexivity.
  - unfold Float32.integral.
    replace (0 <=? Z.pos (digits2_pos p) + -1 - 24) with false
      by (symmetry; apply Z.leb_gt; lia).
    rewrite Hexp, Hpow, shiftl_nat_value, Z2Nat.id by lia.
    rewrite Z.mul_mod_distr_r, Hodd by lia.
    apply Z.eqb_neq. lia.
Qed.

Lemma of_dyadic_signed (s : bool) (p : positive) (e : Z) :
  Float32.of_dyadic (cond_Zopp s (Z.pos p)) e = binary_round 24 128 s p e.
Proof. destruct s; reflexivity. Qed.

Lemma odd_as_signed (k : Z) :
  exists s p, 2 * k + 1 = cond_Zopp s (Z.pos p) /\ Z.pos p mod 2 = 1 /\
              Z.pos p = Z.abs (2 * k + 1).
Proof.
  destruct (2 * k + 1) as [| p | p] eqn:Hn; [lia | |].
  - exists false, p. repeat split.
    rewrite <- Hn. rewrite Z.add_comm, Z.mul_comm, Z.mod_add by lia. reflexivity.
  - exists true, p. repeat split.
    replace (Z.pos p) with (1 + (- k - 1) * 2) by lia.
    rewrite Z.mod_add by lia. reflexivity.
Qed.

(** ** Rounding an [int]: how large the result can be *)










Section KomiBeyondInt.
Context `{Platform}.



End KomiBeyondInt.

(** ** Komi *)

Section KomiFacts.
Context `{Platform}.




(** C1, on the code: the half-integer 6.5 is refused, and so is every
    half-integer [k + 1/2] a [float32] can hold. *)
Theorem komiIsIntOrHalfInt_half_integer_false :
  komiIsIntOrHalfInt komi_6_5 = false /\
  forall k : Z,
    - 2 ^ 23 <= k < 2 ^ 23 ->
    komiIsIntOrHalfInt (Float32.of_dyadic (2 * k + 1) (-1)) = false.
Proof.
  split; [vm_compute; reflexivity |].
  intros k Hk.
  destruct (odd_as_signed k) as (s & p & Heq & Hodd & Habs).
  rewrite Heq, of_dyadic_signed.
  assert (Hlt : Z.pos p < 2 ^ 24) by lia.
  destruct (half_integer_float s p Hodd Hlt) as (Hvalid & Htrunc & Hint).
  assert (Hq : 0 <= Z.pos p / 2 < 2 ^ 23).
  { split; [apply Z.div_pos; lia |].
    apply Z.div_lt_upper_bound; lia. }
  rewrite (komiIsIntOrHalfInt_integral _ _ Hvalid Htrunc); [exact Hint | |].
  - unfold GoInt.in_range, GoInt.min_int, GoInt.max_int.
    apply andb_true_iff. split; apply Z.leb_le; destruct s; simpl; lia.
  - unfold GoInt.in_range, GoInt.min_int, GoInt.max_int.
    apply andb_true_iff. split; apply Z.leb_le; destruct s; simpl; lia.
Qed.

(** The integers of the range of komi a user may give are accepted. *)
Lemma komiIsIntOrHalfInt_integer_true (k : Z) :
  MIN_USER_KOMI <= k <= MAX_USER_KOMI ->
  komiIsIntOrHalfInt (Float32.of_int k) = true.
Proof.
  intros Hk.
  assert (Hin : In k (Zrange MIN_USER_KOMI (MAX_USER_KOMI + 1)))
    by (apply in_Zrange; lia).
  assert (Hall : forallb (fun k => komiIsIntOrHalfInt (Float32.of_int k))
                         (Zrange MIN_USER_KOMI (MAX_USER_KOMI + 1)) = true)
    by (vm_compute; reflexivity).
  rewrite forallb_forall in Hall. apply Hall, Hin.
Qed.

End KomiFacts.



Lemma komiIsIntOrHalfInt_half_integer_false_witness :
  komiIsIntOrHalfInt (H := example_platform) (Float32.of_dyadic (2 * 6 + 1) (-1))
  = false.
Proof.
  apply (komiIsIntOrHalfInt_half_integer_false (H := example_platform)).
  lia.
Defined.

(** * Further properties of the code *)

(** ** Enumerations *)

Ltac split_eqb s t :=
  let E := fresh "E" in
  destruct (String.eqb_spec s t) as [E | E]; [subst s |].

(** A parser returns a nil error exactly on the canonical tokens of its
    enumeration. *)
Theorem parse_accepts_exactly_tokens (s : string) :
  (snd (parseKoRule s) = None <-> In s koRuleStrings) /\
  (snd (parseScoringRule s) = None <-> In s scoringRuleStrings) /\
  (snd (parseTaxRule s) = None <-> In s taxRuleStrings) /\
  (snd (parseWhiteHandicapBonus s) = None <-> In s whiteHandicapBonusStrings).
Proof.
  repeat split.
  - unfold parseKoRule. intros Hnil.
    split_eqb s "SIMPLE"; [simpl; tauto |].
    split_eqb s "POSITIONAL"; [simpl; tauto |].
    split_eqb s "SITUATIONAL"; [simpl; tauto |].
    split_eqb s "SPIGHT"; [simpl; tauto |]. discriminate.
  - intros Hin. simpl in Hin.
    repeat (destruct Hin as [<- | Hin]; [reflexivity |]). contradiction.
  - unfold parseScoringRule. intros Hnil.
    split_eqb s "AREA"; [simpl; tauto |].
    split_eqb s "TERRITORY"; [simpl; tauto |]. discriminate.
  - intros Hin. simpl in Hin.
    repeat (destruct Hin as [<- | Hin]; [reflexivity |]). contradiction.
  - unfold parseTaxRule. intros Hnil.
    split_eqb s "NONE"; [simpl; tauto |].
    split_eqb s "SEKI"; [simpl; tauto |].
    split_eqb s "ALL"; [simpl; tauto |]. discriminate.
  - intros Hin. simpl in Hin.
    repeat (destruct Hin as [<- | Hin]; [reflexivity |]). contradiction.
  - unfold parseWhiteHandicapBonus. intros Hnil.
    split_eqb s "ZERO"; [simpl; tauto |].
    split_eqb s "N"; [simpl; tauto |].
    split_eqb s "N-1"; [simpl; tauto |]. discriminate.
  - intros Hin. simpl in Hin.
    repeat (destruct Hin as [<- | Hin]; [reflexivity |]). contradiction.
Qed.

(** Whatever a parser accepts is a variant of its enumeration, and the
    writer gives the accepted text back. *)
Theorem write_parse_roundtrip (s : string) (v : Z) :
  (parseKoRule s = (v, None) -> In v koRules /\ writeKoRule v = s) /\
  (parseScoringRule s = (v, None) ->
   In v scoringRules /\ writeScoringRule v = s) /\
  (parseTaxRule s = (v, None) -> In v taxRules /\ writeTaxRule v = s) /\
  (parseWhiteHandicapBonus s = (v, None) ->
   In v whiteHandicapBonuses /\ writeWhiteHandicapBonus v = s).
Proof.
  split; [| split; [| split]]; intros Hp.
  - unfold parseKoRule in Hp.
    repeat match type of Hp with
           | (if String.eqb s ?t then _ else _) = _ =>
               split_eqb s t; [injection Hp as <-; simpl; tauto |]
           end.
    discriminate.
  - unfold parseScoringRule in Hp.
    repeat match type of Hp with
           | (if String.eqb s ?t then _ else _) = _ =>
               split_eqb s t; [injection Hp as <-; simpl; tauto |]
           end.
    discriminate.
  - unfold parseTaxRule in Hp.
    repeat match type of Hp with
           | (if String.eqb s ?t then _ else _) = _ =>
               split_eqb s t; [injection Hp as <-; simpl; tauto |]
           end.
    discriminate.
  - unfold parseWhiteHandicapBonus in Hp.
    repeat match type of Hp with
           | (if String.eqb s ?t then _ else _) = _ =>
               split_eqb s t; [injection Hp as <-; simpl; tauto |]
           end.
    discriminate.
Qed.

Lemma write_parse_roundtrip_witness :
  In 2 taxRules /\ writeTaxRule 2 = "ALL".
Proof.
  destruct (write_parse_roundtrip "ALL" 2) as (_ & _ & Ht & _).
  apply Ht. reflexivity.
Defined.

Lemma eqb_false_of_not_in (v a : Z) (l : list Z) :
  ~ In v l -> In a l -> (v =? a) = false.
Proof. intros Hnot Hin. apply Z.eqb_neq. intros ->. contradiction. Qed.

Ltac not_a_variant H :=
  repeat (rewrite (eqb_false_of_not_in _ _ _ H) by (simpl; tauto)).

(** An integer that is no variant is written as UNKNOWN, which no parser
    accepts: such a value does not survive writing and parsing. *)
Theorem write_unknown_not_parsed (v : Z) :
  (~ In v koRules ->
   writeKoRule v = "UNKNOWN" /\
   parseKoRule (writeKoRule v) = (-1, errors_New "invalid Ko Rule")) /\
  (~ In v scoringRules ->
   writeScoringRule v = "UNKNOWN" /\
   parseScoringRule (writeScoringRule v)
   = (-1, errors_New "invalid Scoring Rule")) /\
  (~ In v taxRules ->
   writeTaxRule v = "UNKNOWN" /\
   parseTaxRule (writeTaxRule v) = (-1, errors_New "invalid Tax Rule")) /\
  (~ In v whiteHandicapBonuses ->
   writeWhiteHandicapBonus v = "UNKNOWN" /\
   parseWhiteHandicapBonus (writeWhiteHandicapBonus v)
   = (-1, errors_New "invalid White Handicap Bonus")).
Proof.
  split; [| split; [| split]]; intros Hnot.
  - unfold writeKoRule. not_a_variant Hnot. split; reflexivity.
  - unfold writeScoringRule. not_a_variant Hnot. split; reflexivity.
  - unfold writeTaxRule. not_a_variant Hnot. split; reflexivity.
  - unfold writeWhiteHandicapBonus. not_a_variant Hnot. split; reflexivity.
Qed.

Lemma write_unknown_not_parsed_witness :
  writeKoRule 4 = "UNKNOWN" /\
  parseKoRule (writeKoRule 4) = (-1, errors_New "invalid Ko Rule").
Proof.
  destruct (write_unknown_not_parsed 4) as (Hk & _).
  apply Hk. simpl. unfold KO_SIMPLE, KO_POSITIONAL, KO_SITUATIONAL, KO_SPIGHT.
  lia.
Defined.

(** ** Boolean literals *)

(** [stringToBool] accepts the four literals and nothing else, a literal
    in any other case included; a refused text gives [false] with the
    error. *)
Theorem stringToBool_accepts_four_literals (s : string) :
  (stringToBool s = (true, None) <-> In s ["true"; "True"]) /\
  (stringToBool s = (false, None) <-> In s ["false"; "False"]) /\
  (stringToBool s = (false, errors_New "input should be 'true' or 'false'")
   <-> ~ In s ["true"; "True"; "false"; "False"]).
Proof.
  unfold stringToBool.
  split_eqb s "true"; [simpl; intuition (discriminate || auto) |].
  split_eqb s "True"; [simpl; intuition (discriminate || auto) |].
  split_eqb s "false"; [simpl; intuition (discriminate || auto) |].
  split_eqb s "False"; [simpl; intuition (discriminate || auto) |].
  simpl. intuition (discriminate || congruence).
Qed.

(** ** Equality up to komi *)

Lemma EqualsIgnoringKomi_fields (r other : Rules) :
  EqualsIgnoringKomi r other = true <->
  KoRule r = KoRule other /\ ScoringRule r = ScoringRule other /\
  TaxRule r = TaxRule other /\
  WhiteHandicapBonus r = WhiteHandicapBonus other /\
  MultiStoneSuicide r = MultiStoneSuicide other /\
  HasButton r = HasButton other /\ FriendlyPassOk r = FriendlyPassOk other.
Proof.
  unfold EqualsIgnoringKomi.
  rewrite !andb_true_iff, !Z.eqb_eq, !Bool.eqb_true_iff. tauto.
Qed.

(** [EqualsIgnoringKomi] is an equivalence relation on rulesets. *)
Theorem EqualsIgnoringKomi_equivalence :
  (forall r, EqualsIgnoringKomi r r = true) /\
  (forall r other, EqualsIgnoringKomi r other = EqualsIgnoringKomi other r) /\
  (forall a b c, EqualsIgnoringKomi a b = true ->
                 EqualsIgnoringKomi b c = true ->
                 EqualsIgnoringKomi a c = true).
Proof.
  split; [| split].
  - intros r. apply EqualsIgnoringKomi_fields. tauto.
  - intros r other. apply eq_true_iff_eq.
    rewrite !EqualsIgnoringKomi_fields. intuition congruence.
  - intros a b c Hab Hbc. apply EqualsIgnoringKomi_fields.
    apply EqualsIgnoringKomi_fields in Hab, Hbc. intuition congruence.
Qed.

Lemma EqualsIgnoringKomi_equivalence_witness :
  EqualsIgnoringKomi TrompTaylorish (set_Komi komi_6_5 TrompTaylorish) = true.
Proof.
  destruct EqualsIgnoringKomi_equivalence as (_ & _ & Htrans).
  apply (Htrans _ (set_Komi komi_7_0 TrompTaylorish)); reflexivity.
Defined.

(** Two rulesets are equal up to komi exactly when the second is the
    first with another komi: [CustomRules] on the seven other fields of
    the first and the komi of the second builds the second.  So a change
    of komi alone is never seen, and a change of any other field is. *)
Theorem EqualsIgnoringKomi_iff_only_komi_differs (recv : pointer) (r other : Rules) :
  EqualsIgnoringKomi r other = true <->
  other = CustomRules recv (KoRule r) (ScoringRule r) (TaxRule r)
                      (WhiteHandicapBonus r) (MultiStoneSuicide r)
                      (HasButton r) (FriendlyPassOk r) (Komi other).
Proof.
  rewrite EqualsIgnoringKomi_fields. unfold CustomRules.
  destruct r, other; simpl. split.
  - intros (-> & -> & -> & -> & -> & -> & ->). reflexivity.
  - intros Heq. injection Heq as -> -> -> -> -> -> ->. tauto.
Qed.

(** ** Updates by key, continued *)

Lemma insert_same (l : loc) (rs : Rules) (st : store) :
  st !! l = Some rs -> <[l := id rs]> st = st.
Proof. intros Hl. now apply insert_id. Qed.

Ltac shape_case parsed setter :=
  destruct (parse_outcome_cases parsed) as [(a & ->) | (a & msg & ->)];
  [ exists None, (setter a); split; [| split; [| split]];
    [ intros l st rs Hl; simpl; unfold bind;
      rewrite (assign_allocated l rs _ st Hl); reflexivity
    | unfold writes_field; eauto 12
    | congruence
    | reflexivity ]
  | exists (Some msg), id; split; [| split; [| split]];
    [ intros l st rs Hl; rewrite (insert_same l rs st Hl); reflexivity
    | left; reflexivity
    | reflexivity
    | reflexivity ] ].

(** The shape of every call on an allocated receiver: the store with
    the receiver's object updated by an [f] that the key and the value
    fix. *)
Lemma UpdateRules_shape (k v : string) :
  exists (err : error) (f : Rules -> Rules),
    (forall l st rs,
        st !! l = Some rs ->
        UpdateRules (addr l) k v st
        = Done (if is_nil_error err then addr l else nil, err)
               (<[l := f rs]> st)) /\
    writes_field k f /\
    (err <> None -> f = id) /\
    (forall rs, Komi (f rs) = Komi rs).
Proof.
  unfold UpdateRules.
  split_eqb k "ko"; [shape_case (parseKoRule v) set_KoRule |].
  split_eqb k "score".
  { exists None, id. split; [| split; [| split]];
      [| left; reflexivity | reflexivity | reflexivity].
    intros l st rs Hl. rewrite (insert_same l rs st Hl). reflexivity. }
  split_eqb k "scoring"; [shape_case (parseScoringRule v) set_ScoringRule |].
  split_eqb k "tax"; [shape_case (parseTaxRule v) set_TaxRule |].
  split_eqb k "suicide"; [shape_case (stringToBool v) set_MultiStoneSuicide |].
  split_eqb k "hasButton"; [shape_case (stringToBool v) set_HasButton |].
  split_eqb k "whiteHandicapBonus";
    [shape_case (parseWhiteHandicapBonus v) set_WhiteHandicapBonus |].
  split_eqb k "friendlyPassOk";
    [shape_case (stringToBool v) set_FriendlyPassOk |].
  exists (fmt_Errorf_not_valid_key k), id. split; [| split; [| split]];
    [| left; reflexivity | reflexivity | reflexivity].
  intros l st rs Hl. rewrite (insert_same l rs st Hl). reflexivity.
Qed.

(** On a receiver that holds a ruleset, [UpdateRules] never panics; it
    changes no object but the receiver's, adds none, and never changes
    the komi; when it fails it changes nothing at all. *)
Theorem UpdateRules_frame (l : loc) (rs : Rules) (k v : string) (st : store) :
  st !! l = Some rs ->
  exists p err rs',
    UpdateRules (addr l) k v st = Done (p, err) (<[l := rs']> st) /\
    Komi rs' = Komi rs /\
    (err <> None -> rs' = rs /\ <[l := rs']> st = st).
Proof.
  intros Hl. destruct (UpdateRules_shape k v) as (err & f & Hrun & _ & Hid & Hkomi).
  exists (if is_nil_error err then addr l else nil), err, (f rs).
  split; [apply Hrun, Hl | split; [apply Hkomi |]].
  intros Herr. rewrite (Hid Herr). split; [reflexivity |].
  apply insert_same, Hl.
Qed.

Lemma UpdateRules_frame_witness :
  exists p err rs',
    UpdateRules (addr 1%positive) "ko" "SPIGHT" {[ 1%positive := Chinese ]}
    = Done (p, err) (<[1%positive := rs']> {[ 1%positive := Chinese ]}) /\
    Komi rs' = Komi Chinese /\
    (err <> None ->
     rs' = Chinese /\
     <[1%positive := rs']> {[ 1%positive := Chinese ]}
     = ({[ 1%positive := Chinese ]} : store)).
Proof.
  apply (UpdateRules_frame 1%positive Chinese "ko" "SPIGHT").
  reflexivity.
Defined.

Lemma writes_field_idempotent (k : string) (f : Rules -> Rules) :
  writes_field k f -> forall rs, f (f rs) = f rs.
Proof.
  unfold writes_field. intros Hw rs.
  repeat (destruct Hw as [Hw | Hw]);
    try (destruct Hw as (_ & a & ->)); subst; reflexivity.
Qed.

Lemma writes_field_commute (k1 k2 : string) (f1 f2 : Rules -> Rules) :
  writes_field k1 f1 -> writes_field k2 f2 -> k1 <> k2 ->
  forall rs, f1 (f2 rs) = f2 (f1 rs).
Proof.
  unfold writes_field. intros Hw1 Hw2 Hne rs.
  repeat (destruct Hw1 as [Hw1 | Hw1]);
    try (destruct Hw1 as (Hk1 & a1 & ->)); subst;
    repeat (destruct Hw2 as [Hw2 | Hw2]);
    try (destruct Hw2 as (Hk2 & a2 & ->)); subst;
    reflexivity || congruence.
Qed.

(** An update by the text a writer produces for a variant, or by a
    boolean literal, stores exactly that value in the field the key
    names and returns the receiver. *)
Theorem UpdateRules_sets_named_field (l : loc) (rs : Rules) (st : store) :
  st !! l = Some rs ->
  (forall v, In v koRules ->
             UpdateRules (addr l) "ko" (writeKoRule v) st
             = Done (addr l, None) (<[l := set_KoRule v rs]> st)) /\
  (forall v, In v scoringRules ->
             UpdateRules (addr l) "scoring" (writeScoringRule v) st
             = Done (addr l, None) (<[l := set_ScoringRule v rs]> st)) /\
  (forall v, In v taxRules ->
             UpdateRules (addr l) "tax" (writeTaxRule v) st
             = Done (addr l, None) (<[l := set_TaxRule v rs]> st)) /\
  (forall v, In v whiteHandicapBonuses ->
             UpdateRules (addr l) "whiteHandicapBonus"
                         (writeWhiteHandicapBonus v) st
             = Done (addr l, None) (<[l := set_WhiteHandicapBonus v rs]> st)) /\
  (forall (b : bool) (lit : string),
      In lit (if b then ["true"; "True"] else ["false"; "False"]) ->
      UpdateRules (addr l) "suicide" lit st
      = Done (addr l, None) (<[l := set_MultiStoneSuicide b rs]> st) /\
      UpdateRules (addr l) "hasButton" lit st
      = Done (addr l, None) (<[l := set_HasButton b rs]> st) /\
      UpdateRules (addr l) "friendlyPassOk" lit st
      = Done (addr l, None) (<[l := set_FriendlyPassOk b rs]> st)).
Proof.
  intros Hl.
  assert (Hrun : forall f, (assign (addr l) f ;;; ret (addr l, None)) st
                           = Done (addr l, None : error) (<[l := f rs]> st)).
  { intros f. unfold bind. rewrite (assign_allocated l rs f st Hl). reflexivity. }
  split; [| split; [| split; [| split]]].
  - intros v Hin. simpl in Hin.
    repeat (destruct Hin as [<- | Hin]; [apply Hrun |]). contradiction.
  - intros v Hin. simpl in Hin.
    repeat (destruct Hin as [<- | Hin]; [apply Hrun |]). contradiction.
  - intros v Hin. simpl in Hin.
    repeat (destruct Hin as [<- | Hin]; [apply Hrun |]). contradiction.
  - intros v Hin. simpl in Hin.
    repeat (destruct Hin as [<- | Hin]; [apply Hrun |]). contradiction.
  - intros b lit Hin. destruct b; simpl in Hin;
      repeat (destruct Hin as [<- | Hin];
              [split; [| split]; apply Hrun |]);
      contradiction.
Qed.

Lemma UpdateRules_sets_named_field_witness :
  UpdateRules (addr 1%positive) "tax" (writeTaxRule TAX_ALL)
              {[ 1%positive := Chinese ]}
  = Done (addr 1%positive, None)
         (<[1%positive := set_TaxRule TAX_ALL Chinese]>
            {[ 1%positive := Chinese ]}).
Proof.
  destruct (UpdateRules_sets_named_field 1%positive Chinese
              {[ 1%positive := Chinese ]}) as (_ & _ & Htax & _).
  - reflexivity.
  - apply Htax. simpl. tauto.
Defined.

(** The same update made twice leaves what making it once leaves, and
    returns the same. *)
Theorem UpdateRules_idempotent (l : loc) (rs : Rules) (k v : string) (st : store) :
  st !! l = Some rs ->
  (UpdateRules (addr l) k v ;;; UpdateRules (addr l) k v) st
  = UpdateRules (addr l) k v st.
Proof.
  intros Hl. destruct (UpdateRules_shape k v) as (err & f & Hrun & Hw & _).
  unfold bind. rewrite (Hrun l st rs Hl).
  rewrite (Hrun l (<[l := f rs]> st) (f rs)) by apply lookup_insert_eq.
  rewrite insert_insert_eq, (writes_field_idempotent k f Hw). reflexivity.
Qed.

Lemma UpdateRules_idempotent_witness :
  (UpdateRules (addr 1%positive) "hasButton" "True" ;;;
   UpdateRules (addr 1%positive) "hasButton" "True") {[ 1%positive := Chinese ]}
  = UpdateRules (addr 1%positive) "hasButton" "True" {[ 1%positive := Chinese ]}.
Proof.
  apply (UpdateRules_idempotent 1%positive Chinese). reflexivity.
Defined.

(** Updates under two different keys can be made in either order: both
    orders return, and leave the same store. *)
Theorem UpdateRules_commute
    (l : loc) (rs : Rules) (k1 v1 k2 v2 : string) (st : store) :
  st !! l = Some rs -> k1 <> k2 ->
  exists r12 r21 st',
    (UpdateRules (addr l) k1 v1 ;;; UpdateRules (addr l) k2 v2) st
    = Done r12 st' /\
    (UpdateRules (addr l) k2 v2 ;;; UpdateRules (addr l) k1 v1) st
    = Done r21 st'.
Proof.
  intros Hl Hne.
  destruct (UpdateRules_shape k1 v1) as (err1 & f1 & Hrun1 & Hw1 & _).
  destruct (UpdateRules_shape k2 v2) as (err2 & f2 & Hrun2 & Hw2 & _).
  eexists _, _, _. unfold bind.
  rewrite (Hrun1 l st rs Hl), (Hrun2 l st rs Hl).
  rewrite (Hrun2 l (<[l := f1 rs]> st) (f1 rs)) by apply lookup_insert_eq.
  rewrite (Hrun1 l (<[l := f2 rs]> st) (f2 rs)) by apply lookup_insert_eq.
  rewrite !insert_insert_eq, (writes_field_commute k1 k2 f1 f2 Hw1 Hw2 Hne).
  split; reflexivity.
Qed.

Lemma UpdateRules_commute_witness :
  exists r12 r21 st',
    (UpdateRules (addr 1%positive) "ko" "SPIGHT" ;;;
     UpdateRules (addr 1%positive) "tax" "ALL") {[ 1%positive := Chinese ]}
    = Done r12 st' /\
    (UpdateRules (addr 1%positive) "tax" "ALL" ;;;
     UpdateRules (addr 1%positive) "ko" "SPIGHT") {[ 1%positive := Chinese ]}
    = Done r21 st'.
Proof.
  apply (UpdateRules_commute 1%positive Chinese); [reflexivity | discriminate].
Defined.

Lemma prefix_append (a b : string) : String.prefix a (a +:+ b) = true.
Proof.
  induction a as [| c a IH]; [destruct b; reflexivity |].
  change (String c a +:+ b) with (String c (a +:+ b)). simpl.
  destruct (ascii_dec c c); [exact IH | contradiction].
Qed.

(** Keys are matched exactly: whatever is not one of the eight keys, a
    key in another case or the key of the komi included, is refused
    with an error whose text starts with the key; nothing is written. *)
Theorem UpdateRules_unknown_key_named (r : pointer) (k v : string) (st : store) :
  ~ In k updateKeys ->
  UpdateRules r k v st = Done (nil, Some (k +:+ " is not a valid rule key")) st /\
  carries (Some (k +:+ " is not a valid rule key")) k.
Proof.
  intros Hnot. split; [apply (UpdateRules_unknown_key r k v st Hnot) |].
  eexists. split; [reflexivity |].
  destruct k; simpl; [reflexivity |].
  destruct (ascii_dec a a); [| contradiction].
  rewrite prefix_append. reflexivity.
Qed.

Lemma UpdateRules_unknown_key_named_witness :
  UpdateRules nil "Ko" "SIMPLE" ∅
  = Done (nil, Some "Ko is not a valid rule key") ∅ /\
  UpdateRules nil "komi" "6.5" ∅
  = Done (nil, Some "komi is not a valid rule key") ∅.
Proof.
  split.
  - apply (UpdateRules_unknown_key_named nil "Ko" "SIMPLE" ∅).
    apply not_in_dec. reflexivity.
  - apply (UpdateRules_unknown_key_named nil "komi" "6.5" ∅).
    apply not_in_dec. reflexivity.
Defined.

Ltac nil_case parsed :=
  unfold UpdateRules; simpl; destruct parsed as [? [? |]]; reflexivity.

(** On a nil receiver [UpdateRules] panics exactly when there is a field
    to write: under the key of a field it panics when the value parses
    and returns nil with the parser's error when it does not.  Under the
    key [score] it returns nil with a nil error, and under any other
    key nil with the unknown-key error.  It never writes. *)
Theorem UpdateRules_nil_receiver (k v : string) (st : store) :
  UpdateRules nil "ko" v st
  = (if is_nil_error (snd (parseKoRule v)) then Panic
     else Done (nil, snd (parseKoRule v)) st) /\
  UpdateRules nil "scoring" v st
  = (if is_nil_error (snd (parseScoringRule v)) then Panic
     else Done (nil, snd (parseScoringRule v)) st) /\
  UpdateRules nil "tax" v st
  = (if is_nil_error (snd (parseTaxRule v)) then Panic
     else Done (nil, snd (parseTaxRule v)) st) /\
  UpdateRules nil "whiteHandicapBonus" v st
  = (if is_nil_error (snd (parseWhiteHandicapBonus v)) then Panic
     else Done (nil, snd (parseWhiteHandicapBonus v)) st) /\
  UpdateRules nil "suicide" v st
  = (if is_nil_error (snd (stringToBool v)) then Panic
     else Done (nil, snd (stringToBool v)) st) /\
  UpdateRules nil "hasButton" v st
  = (if is_nil_error (snd (stringToBool v)) then Panic
     else Done (nil, snd (stringToBool v)) st) /\
  UpdateRules nil "friendlyPassOk" v st
  = (if is_nil_error (snd (stringToBool v)) then Panic
     else Done (nil, snd (stringToBool v)) st) /\
  UpdateRules nil "score" v st = Done (nil, None) st /\
  (~ In k updateKeys ->
   UpdateRules nil k v st = Done (nil, fmt_Errorf_not_valid_key k) st).
Proof.
  split; [nil_case (parseKoRule v) |].
  split; [nil_case (parseScoringRule v) |].
  split; [nil_case (parseTaxRule v) |].
  split; [nil_case (parseWhiteHandicapBonus v) |].
  split; [nil_case (stringToBool v) |].
  split; [nil_case (stringToBool v) |].
  split; [nil_case (stringToBool v) |].
  split; [reflexivity |].
  apply UpdateRules_unknown_key.
Qed.

Lemma UpdateRules_nil_receiver_witness :
  UpdateRules nil "ko" "SPIGHT" ∅ = Panic /\
  UpdateRules nil "ko" "spight" ∅ = Done (nil, Some "invalid Ko Rule") ∅ /\
  UpdateRules nil "Ko" "SPIGHT" ∅
  = Done (nil, Some "Ko is not a valid rule key") ∅.
Proof.
  destruct (UpdateRules_nil_receiver "Ko" "SPIGHT" ∅)
    as (Hgood & _ & _ & _ & _ & _ & _ & _ & Hkey).
  destruct (UpdateRules_nil_receiver "Ko" "spight" ∅) as (Hbad & _).
  split; [exact Hgood | split; [exact Hbad |]].
  apply Hkey, not_in_dec. reflexivity.
Defined.

(** ** Presets, continued *)

Section PresetInvariants.
Context `{Platform}.

Ltac preset_cases :=
  unfold parseRulesHelper, GetTrompTaylorish, GetSimpleTerritory;
  repeat match goal with
         | |- context [if ?b then _ else _] => destruct b
         end;
  rewrite returned_new; intros Hrs; injection Hrs as <-.

(** Every ruleset a preset name resolves to, and the two that
    [GetTrompTaylorish] and [GetSimpleTerritory] build, has a variant in
    each enumeration field, so nothing of it is written as UNKNOWN, and
    a komi of 6.5, 7 or 7.5. *)
Theorem presets_hold_variants (r : pointer) (s : string) (st : store) (rs : Rules) :
  returned (parseRulesHelper r s st) = Some rs \/
  returned (GetTrompTaylorish r st) = Some rs \/
  returned (GetSimpleTerritory r st) = Some rs ->
  variantFields rs /\ In (Komi rs) [komi_6_5; komi_7_0; komi_7_5].
Proof.
  intros [Hrs | [Hrs | Hrs]]; revert Hrs; preset_cases;
    (split; [repeat split; simpl; tauto | simpl; tauto]).
Qed.

(** No preset name resolves to rules under which the result of a game
    is an integer: the komi has a half and there is no button, or, for
    the AGA rules with a button, the komi is whole. *)
Theorem presets_never_give_integer_result
    (r : pointer) (s : string) (st : store) (rs : Rules) :
  returned (parseRulesHelper r s st) = Some rs ->
  GameResultWillBeInteger rs = false.
Proof. preset_cases; reflexivity. Qed.

(** Each call of [ParseRules] returns an object of its own, at an
    address the store did not use: updating the object of one call
    changes neither the receiver nor the object of another call for the
    same name. *)
Theorem ParseRules_objects_not_shared
    (r : loc) (rcv : Rules) (s k v : string) (st : store) :
  st !! r = Some rcv ->
  exists rs st',
    returned (ParseRules (addr r) s st) = Some rs /\
    (let* p1 := ParseRules (addr r) s in
     let* p2 := ParseRules (addr r) s in
     UpdateRules p1 k v ;;;
     let* second := load p2 in
     let* receiver := load (addr r) in
     ret (second, receiver)) st
    = Done (rs, rcv) st'.
Proof.
  intros Hr. destruct (parseRulesHelper_new s) as [rs Hnew].
  destruct (UpdateRules_shape k v) as (err & f & Hrun & _).
  exists rs. eexists. unfold ParseRules. rewrite Hnew, returned_new.
  split; [reflexivity |].
  unfold bind at 1. rewrite Hnew. unfold new at 1.
  set (l1 := fresh (dom st)).
  assert (Hl1 : st !! l1 = None) by apply fresh_unused.
  unfold bind at 1. rewrite Hnew. unfold new at 1.
  set (st1 := <[l1 := rs]> st).
  set (l2 := fresh (dom st1)).
  assert (Hl2 : st1 !! l2 = None) by apply fresh_unused.
  assert (Hne : l1 <> l2).
  { intros Heq. rewrite <- Heq in Hl2. unfold st1 in Hl2.
    rewrite lookup_insert_eq in Hl2. discriminate. }
  assert (Hr1 : r <> l1) by congruence.
  assert (Hr2 : r <> l2).
  { intros Heq. rewrite <- Heq in Hl2. unfold st1 in Hl2.
    rewrite lookup_insert_ne in Hl2 by congruence. congruence. }
  unfold bind at 1.
  rewrite (Hrun l1 (<[l2 := rs]> st1) rs).
  2:{ rewrite lookup_insert_ne by congruence. apply lookup_insert_eq. }
  unfold bind, load, ret.
  rewrite lookup_insert_ne, lookup_insert_eq by congruence.
  rewrite !lookup_insert_ne by congruence. unfold st1.
  rewrite lookup_insert_ne, Hr by congruence. reflexivity.
Qed.

(** [ParseRulesWithoutKomi] gives the komi it is passed and, up to the
    komi, the rules [ParseRules] gives for the name. *)
Theorem ParseRulesWithoutKomi_equals_ignoring_komi
    (r1 r2 : pointer) (s : string) (komi : float32) (st1 st2 : store) :
  exists rs rsk,
    returned (ParseRules r1 s st1) = Some rs /\
    returned (ParseRulesWithoutKomi r2 s komi st2) = Some rsk /\
    Komi rsk = komi /\
    EqualsIgnoringKomi rsk rs = true.
Proof.
  destruct (ParseRulesWithoutKomi_new s komi) as [rs Hrs].
  exists rs, (set_Komi komi rs). unfold ParseRules.
  destruct (Hrs r1 st1) as [-> _]. destruct (Hrs r2 st2) as [_ ->].
  rewrite !returned_new. repeat split.
  apply EqualsIgnoringKomi_fields. simpl. tauto.
Qed.

End PresetInvariants.

Lemma presets_hold_variants_witness :
  variantFields Chinese /\ In (Komi Chinese) [komi_6_5; komi_7_0; komi_7_5].
Proof.
  apply (presets_hold_variants (H := example_platform) nil "chinese" ∅).
  left. reflexivity.
Defined.

Lemma presets_never_give_integer_result_witness :
  GameResultWillBeInteger (H := example_platform)
    (mkRules KO_SITUATIONAL SCORE_AREA TAX_NONE WHB_N_MINUS_ONE
             false true true komi_7_0) = false.
Proof.
  apply (presets_never_give_integer_result (H := example_platform)
           nil "AGA-Button" ∅).
  reflexivity.
Defined.

Lemma ParseRules_objects_not_shared_witness :
  exists rs st',
    returned (ParseRules (H := example_platform) (addr 1%positive) "nz"
                         {[ 1%positive := Chinese ]}) = Some rs /\
    (let* p1 := ParseRules (H := example_platform) (addr 1%positive) "nz" in
     let* p2 := ParseRules (H := example_platform) (addr 1%positive) "nz" in
     UpdateRules p1 "suicide" "false" ;;;
     let* second := load p2 in
     let* receiver := load (addr 1%positive) in
     ret (second, receiver)) {[ 1%positive := Chinese ]}
    = Done (rs, Chinese) st'.
Proof.
  apply (ParseRules_objects_not_shared (H := example_platform)).
  reflexivity.
Defined.

(** ** Display strings, continued *)

Lemma in_allVariantRules (r : Rules) :
  variantFields r -> In r (allVariantRules (Komi r)).
Proof.
  destruct r as [ko sc tax whb su bu fp komi].
  unfold variantFields.
  cbn [KoRule ScoringRule TaxRule WhiteHandicapBonus Komi].
  intros (Hko & Hsc & Htax & Hwhb). unfold allVariantRules.
  apply in_flat_map. exists ko. split; [exact Hko |].
  apply in_flat_map. exists sc. split; [exact Hsc |].
  apply in_flat_map. exists tax. split; [exact Htax |].
  apply in_flat_map. exists whb. split; [exact Hwhb |].
  apply in_flat_map. exists su. split; [destruct su; simpl; tauto |].
  apply in_flat_map. exists bu. split; [destruct bu; simpl; tauto |].
  apply in_map_iff. exists fp. split; [reflexivity | destruct fp; simpl; tauto].
Qed.

Lemma ToStringNoKomi_ignores_komi (r : Rules) (komi : float32) :
  ToStringNoKomi (set_Komi komi r) = ToStringNoKomi r.
Proof. reflexivity. Qed.

Lemma ToStringNoKomi_distinct :
  let shown := map (fun r => (ToStringNoKomi r, r)) (allVariantRules komi_7_5) in
  forallb (fun a =>
    forallb (fun b =>
      implb (String.eqb (fst a) (fst b)) (EqualsIgnoringKomi (snd a) (snd b)))
      shown)
    shown = true.
Proof. vm_compute. reflexivity. Qed.

(** The display string without komi tells rulesets apart exactly as
    [EqualsIgnoringKomi] does: equal up to komi, two rulesets are
    displayed alike; displayed alike, two rulesets with variants in
    their enumeration fields are equal up to komi. *)
Theorem ToStringNoKomi_determines_rules (r other : Rules) :
  (EqualsIgnoringKomi r other = true ->
   ToStringNoKomi r = ToStringNoKomi other) /\
  (variantFields r -> variantFields other ->
   ToStringNoKomi r = ToStringNoKomi other ->
   EqualsIgnoringKomi r other = true).
Proof.
  split.
  - intros Heq. apply EqualsIgnoringKomi_fields in Heq.
    destruct Heq as (Hko & Hsc & Htax & Hwhb & Hsu & Hbu & Hfp).
    unfold ToStringNoKomi. rewrite Hko, Hsc, Htax, Hwhb, Hsu, Hbu, Hfp.
    reflexivity.
  - intros Hr Ho Hshown.
    assert (Hr' : In (set_Komi komi_7_5 r) (allVariantRules komi_7_5))
      by (apply (in_allVariantRules (set_Komi komi_7_5 r)); exact Hr).
    assert (Ho' : In (set_Komi komi_7_5 other) (allVariantRules komi_7_5))
      by (apply (in_allVariantRules (set_Komi komi_7_5 other)); exact Ho).
    pose proof ToStringNoKomi_distinct as Hall. cbv zeta in Hall.
    rewrite forallb_forall in Hall.
    specialize (Hall _ (in_map (fun r => (ToStringNoKomi r, r)) _ _ Hr')).
    rewrite forallb_forall in Hall.
    specialize (Hall _ (in_map (fun r => (ToStringNoKomi r, r)) _ _ Ho')).
    cbn [fst snd] in Hall.
    rewrite !ToStringNoKomi_ignores_komi, Hshown, String.eqb_refl in Hall.
    apply EqualsIgnoringKomi_fields in Hall. apply EqualsIgnoringKomi_fields.
    exact Hall.
Qed.

Lemma ToStringNoKomi_determines_rules_witness :
  ToStringNoKomi Chinese = ToStringNoKomi (set_Komi komi_6_5 Chinese) /\
  EqualsIgnoringKomi Chinese (set_Komi komi_6_5 Chinese) = true.
Proof.
  destruct (ToStringNoKomi_determines_rules Chinese (set_Komi komi_6_5 Chinese))
    as [Hshown Heq].
  split.
  - apply Hshown. reflexivity.
  - apply Heq; [| | reflexivity]; repeat split; simpl; tauto.
Defined.

Lemma ToString_zero_bonus_witness :
  ToString TrompTaylorish
  = "Ko Rule: POSITIONAL, Scoring Rule: AREA, Tax Rule: NONE, White Handicap Bonus: ZERO, Komi: 7.5".
Proof.
  rewrite (ToString_zero_bonus TrompTaylorish); reflexivity.
Defined.

(** ** Komi, continued *)

(** The [float32] of a whole number below 2^24: it is exact and its
    value is an integer. *)
Lemma integer_float (s : bool) (p : positive) :
  Z.pos p < 2 ^ 24 ->
  let x := binary_round 24 128 s p 0 in
  Float32.valid x = true /\
  Float32.truncate x = Some (cond_Zopp s (Z.pos p)) /\
  Float32.integral x = true.
Proof.
  intros Hlt x. subst x.
  pose proof (digits2_pos_bounds p) as [Hlo _].
  assert (Hd : Z.pos (digits2_pos p) <= 24).
  { assert (Z.pos (digits2_pos p) - 1 < 24); [| lia].
    apply (Z.pow_lt_mono_r_iff 2); lia. }
  rewrite binary_round_exact by lia.
  set (j := 24 - Z.pos (digits2_pos p)).
  assert (Hj : 0 <= j) by (unfold j; lia).
  assert (Hc : 0 < 2 ^ j) by (apply Z.pow_pos_nonneg; lia).
  assert (Hexp : Z.pos (digits2_pos p) + 0 - 24 = - j) by (unfold j; lia).
  rewrite Hexp.
  split; [| split].
  - unfold Float32.valid, valid_binary, bounded, canonical_mantissa.
    rewrite shiftl_nat_digits, Z2Nat.id by lia.
    apply andb_true_iff. split; [apply Z.eqb_eq | apply Z.leb_le].
    + unfold fexp, emin, Float32.prec, Float32.emax. lia.
    + unfold Float32.prec, Float32.emax. lia.
  - unfold Float32.truncate. rewrite shiftl_nat_value, Z2Nat.id by lia.
    destruct (Z.leb_spec 0 (- j)).
    + replace j with 0 by lia. simpl. do 2 f_equal. lia.
    + rewrite Z.opp_involutive, Z.div_mul by lia. reflexivity.
  - unfold Float32.integral. rewrite shiftl_nat_value, Z2Nat.id by lia.
    rewrite Z.opp_involutive, Z.mod_mul by lia.
    rewrite Z.eqb_refl. apply orb_true_r.
Qed.

Lemma int_as_signed (n : Z) :
  n <> 0 -> exists s p, n = cond_Zopp s (Z.pos p) /\ Z.pos p = Z.abs n.
Proof.
  destruct n as [| p | p]; [congruence | |]; intros _.
  - exists false, p. split; reflexivity.
  - exists true, p. split; reflexivity.
Qed.

Lemma in_range_small (s : bool) (a : Z) :
  0 <= a < 2 ^ 62 -> GoInt.in_range (cond_Zopp s a) = true.
Proof.
  intros Ha. unfold GoInt.in_range, GoInt.min_int, GoInt.max_int.
  apply andb_true_iff. split; apply Z.leb_le; destruct s; simpl; lia.
Qed.

Section KomiValues.
Context `{Platform}.

(** What [komiIsIntOrHalfInt] accepts: for every [float32] whose
    truncation doubled is within the range of [int], it returns true
    exactly when the value is an integer. *)
Theorem komiIsIntOrHalfInt_accepts_exactly_integers (x : float32) (z : Z) :
  Float32.valid x = true ->
  Float32.truncate x = Some z ->
  GoInt.in_range z = true -> GoInt.in_range (z * 2) = true ->
  komiIsIntOrHalfInt x = Float32.integral x.
Proof. apply komiIsIntOrHalfInt_integral. Qed.

(** Every whole komi [n] below 2^24 in size is accepted by
    [komiIsIntOrHalfInt], and with it the result of the game is an
    integer exactly when there is no button. *)
Theorem whole_komi_recognized (n : Z) :
  - 2 ^ 24 < n < 2 ^ 24 ->
  komiIsIntOrHalfInt (Float32.of_int n) = true /\
  forall r : Rules,
    Komi r = Float32.of_int n ->
    GameResultWillBeInteger r = negb (HasButton r).
Proof.
  intros Hn.
  assert (Hgame : forall x : float32,
             Float32.eqb (Float32.of_int (Float32.to_int x)) x = true ->
             forall r, Komi r = x ->
                       GameResultWillBeInteger r = negb (HasButton r)).
  { intros x Hx r Hr. unfold GameResultWillBeInteger. rewrite Hr, Hx.
    destruct (HasButton r); reflexivity. }
  destruct (Z.eq_dec n 0) as [-> | Hnz].
  { split; [reflexivity |]. apply Hgame. reflexivity. }
  destruct (int_as_signed n Hnz) as (s & p & -> & Habs).
  rewrite of_int_signed.
  assert (Hlt : Z.pos p < 2 ^ 24) by lia.
  destruct (integer_float s p Hlt) as (Hvalid & Htrunc & Hint).
  assert (Hr : GoInt.in_range (cond_Zopp s (Z.pos p)) = true)
    by (apply in_range_small; lia).
  split.
  - rewrite (komiIsIntOrHalfInt_integral _ _ Hvalid Htrunc Hr); [exact Hint |].
    rewrite cond_Zopp_mul. apply in_range_small. lia.
  - apply Hgame.
    rewrite (komi_roundtrip_integral _ _ Hvalid Htrunc Hr). exact Hint.
Qed.

(** With a komi of a whole number and a half, [k + 1/2], the result of
    the game is an integer exactly when there is a button. *)
Theorem half_komi_game_result (k : Z) (r : Rules) :
  - 2 ^ 23 <= k < 2 ^ 23 ->
  Komi r = Float32.of_dyadic (2 * k + 1) (-1) ->
  GameResultWillBeInteger r = HasButton r.
Proof.
  intros Hk Hkomi.
  destruct (odd_as_signed k) as (s & p & Heq & Hodd & Habs).
  rewrite Heq, of_dyadic_signed in Hkomi.
  assert (Hlt : Z.pos p < 2 ^ 24) by lia.
  destruct (half_integer_float s p Hodd Hlt) as (Hvalid & Htrunc & Hint).
  assert (Hq : 0 <= Z.pos p / 2 < 2 ^ 23).
  { split; [apply Z.div_pos; lia |].
    apply Z.div_lt_upper_bound; lia. }
  unfold GameResultWillBeInteger. rewrite Hkomi.
  rewrite (komi_roundtrip_integral _ _ Hvalid Htrunc), Hint
    by (apply in_range_small; lia).
  destruct (HasButton r); reflexivity.
Qed.

(** A komi that is not a number is refused by [komiIsIntOrHalfInt], as
    is an infinite one, and with it the result of the game is an
    integer exactly when there is a button: whatever the conversion to
    [int] makes of such a komi. *)
Theorem komi_not_finite :
  komiIsIntOrHalfInt S754_nan = false /\
  (forall s : bool, komiIsIntOrHalfInt (S754_infinity s) = false) /\
  (forall r : Rules, Komi r = S754_nan ->
                     GameResultWillBeInteger r = HasButton r).
Proof.
  split; [| split].
  - unfold komiIsIntOrHalfInt. apply andb_false_r.
  - intros s. unfold komiIsIntOrHalfInt. destruct s; reflexivity.
  - intros r Hr. unfold GameResultWillBeInteger. rewrite Hr.
    replace (Float32.eqb _ S754_nan) with false.
    + destruct (HasButton r); reflexivity.
    + unfold Float32.eqb, SFeqb, SFcompare.
      destruct (Float32.of_int _); reflexivity.
Qed.

End KomiValues.

Lemma komiIsIntOrHalfInt_accepts_exactly_integers_witness :
  komiIsIntOrHalfInt (H := example_platform) komi_7_5
  = Float32.integral komi_7_5.
Proof.
  apply (komiIsIntOrHalfInt_accepts_exactly_integers
           (H := example_platform) komi_7_5 7); reflexivity.
Defined.

Lemma whole_komi_recognized_witness :
  komiIsIntOrHalfInt (H := example_platform) (Float32.of_int 7) = true /\
  forall r : Rules,
    Komi r = Float32.of_int 7 ->
    GameResultWillBeInteger (H := example_platform) r = negb (HasButton r).
Proof.
  apply (whole_komi_recognized (H := example_platform) 7). lia.
Defined.

Lemma half_komi_game_result_witness :
  GameResultWillBeInteger (H := example_platform) Chinese = HasButton Chinese.
Proof.
  apply (half_komi_game_result (H := example_platform) 7 Chinese);
    [lia | reflexivity].
Defined.

Lemma komi_not_finite_witness :
  GameResultWillBeInteger (H := example_platform) (set_Komi S754_nan Chinese)
  = false.
Proof.
  destruct (komi_not_finite (H := example_platform)) as (_ & _ & Hnan).
  apply (Hnan (set_Komi S754_nan Chinese)). reflexivity.
Defined.

(** ** Preset names: case and separators *)

Lemma lower_byte_facts (c : ascii) :
  GoString.asciiSpace (GoString.lower_byte c) = GoString.asciiSpace c /\
  (GoString.RuneSelf <=? GoString.byte_of (GoString.lower_byte c))
  = (GoString.RuneSelf <=? GoString.byte_of c) /\
  Ascii.eqb (GoString.lower_byte c) "-" = Ascii.eqb c "-" /\
  Ascii.eqb (GoString.lower_byte c) "_" = Ascii.eqb c "_" /\
  Ascii.eqb (GoString.lower_byte c) " " = Ascii.eqb c " " /\
  GoString.lower_byte (GoString.lower_byte c) = GoString.lower_byte c.
Proof.
  destruct c as [[] [] [] [] [] [] [] []]; vm_compute; repeat split.
Qed.

Lemma isASCII_lower (s : string) : GoString.isASCII (lower s) = GoString.isASCII s.
Proof.
  induction s as [| c s IH]; [reflexivity |]. simpl.
  destruct (lower_byte_facts c) as (_ & Hrune & _).
  rewrite IH. f_equal.
  rewrite !Z.ltb_antisym, Hrune. reflexivity.
Qed.

Lemma rev_string_lower (acc s : string) :
  GoString.rev_string (lower acc) (lower s) = lower (GoString.rev_string acc s).
Proof.
  revert acc. induction s as [| c s IH]; intros acc; [reflexivity |].
  simpl. apply (IH (String c acc)).
Qed.

Lemma isASCII_rev_string (acc s : string) :
  GoString.isASCII (GoString.rev_string acc s)
  = GoString.isASCII acc && GoString.isASCII s.
Proof.
  revert acc. induction s as [| c s IH]; intros acc; simpl.
  - now rewrite andb_true_r.
  - rewrite IH. simpl. destruct (GoString.byte_of c <? GoString.RuneSelf),
      (GoString.isASCII acc), (GoString.isASCII s); reflexivity.
Qed.

(** On a string of ASCII bytes the second loop of [TrimSpace] never
    meets the Unicode path. *)
Lemma trim_left_ascii_inl (s : string) :
  GoString.isASCII s = true ->
  exists r, GoString.trim_left_ascii s = inl r /\ GoString.isASCII r = true.
Proof.
  induction s as [| c s IH]; intros Hascii; [exists ""; split; reflexivity |].
  simpl in Hascii. apply andb_true_iff in Hascii as [Hc Hs].
  simpl. apply Z.ltb_lt in Hc.
  replace (GoString.RuneSelf <=? GoString.byte_of c) with false
    by (symmetry; apply Z.leb_gt; exact Hc).
  destruct (GoString.asciiSpace c); [apply IH, Hs |].
  exists (String c s). split; [reflexivity |].
  simpl. apply andb_true_iff. split; [apply Z.ltb_lt, Hc | exact Hs].
Qed.

Lemma trim_left_ascii_lower (s r : string) :
  GoString.trim_left_ascii s = inl r ->
  GoString.trim_left_ascii (lower s) = inl (lower r).
Proof.
  induction s as [| c s IH]; simpl.
  - intros Heq. injection Heq as <-. reflexivity.
  - destruct (lower_byte_facts c) as (Hspace & Hrune & _).
    rewrite Hrune, Hspace.
    destruct (GoString.RuneSelf <=? GoString.byte_of c); [discriminate |].
    destruct (GoString.asciiSpace c); [exact IH |].
    intros Heq. injection Heq as <-. reflexivity.
Qed.

Section Names.
Context `{Platform}.

Lemma trim_right_lower (s : string) :
  GoString.isASCII s = true ->
  GoString.trim_right (lower s) = lower (GoString.trim_right s) /\
  GoString.isASCII (GoString.trim_right s) = true.
Proof.
  intros Hascii. unfold GoString.trim_right.
  destruct (trim_left_ascii_inl (GoString.rev_string "" s)) as (r & Hr & Har).
  { rewrite isASCII_rev_string. exact Hascii. }
  change "" with (lower "") at 1.
  rewrite rev_string_lower, (trim_left_ascii_lower _ r Hr), Hr.
  change "" with (lower "") at 1. rewrite rev_string_lower.
  split; [reflexivity |]. rewrite isASCII_rev_string. exact Har.
Qed.

Lemma TrimSpace_lower (s : string) :
  GoString.isASCII s = true ->
  GoString.TrimSpace (lower s) = lower (GoString.TrimSpace s) /\
  GoString.isASCII (GoString.TrimSpace s) = true.
Proof.
  induction s as [| c s IH]; intros Hascii; [split; reflexivity |].
  pose proof Hascii as Hcs.
  simpl in Hascii. apply andb_true_iff in Hascii as [Hc Hs].
  apply Z.ltb_lt in Hc.
  change (lower (String c s)) with (String (GoString.lower_byte c) (lower s)).
  simpl GoString.TrimSpace.
  destruct (lower_byte_facts c) as (Hspace & Hrune & _).
  rewrite Hrune, Hspace.
  replace (GoString.RuneSelf <=? GoString.byte_of c) with false
    by (symmetry; apply Z.leb_gt; exact Hc).
  destruct (GoString.asciiSpace c); [apply IH, Hs |].
  apply (trim_right_lower (String c s) Hcs).
Qed.

End Names.

Lemma ReplaceAll_byte (c : ascii) (s : string) :
  GoString.ReplaceAll s (String c "") "" = remove_byte c s.
Proof.
  unfold GoString.ReplaceAll. induction s as [| x s IH]; [reflexivity |].
  simpl. rewrite IH.
  destruct (ascii_dec c x) as [<- | Hne].
  - rewrite Ascii.eqb_refl. destruct s; reflexivity.
  - replace (Ascii.eqb x c) with false; [reflexivity |].
    symmetry. apply Ascii.eqb_neq. congruence.
Qed.

Lemma remove_byte_lower (c : ascii) (s : string) :
  (forall x, Ascii.eqb (GoString.lower_byte x) c = Ascii.eqb x c) ->
  remove_byte c (lower s) = lower (remove_byte c s).
Proof.
  intros Hc. induction s as [| x s IH]; [reflexivity |].
  simpl. rewrite Hc, IH. destruct (Ascii.eqb x c); reflexivity.
Qed.

Lemma isASCII_remove_byte (c : ascii) (s : string) :
  GoString.isASCII s = true -> GoString.isASCII (remove_byte c s) = true.
Proof.
  induction s as [| x s IH]; [reflexivity |]. simpl. intros Hascii.
  apply andb_true_iff in Hascii as [Hx Hs].
  destruct (Ascii.eqb x c); [apply IH, Hs |].
  simpl. rewrite Hx. apply IH, Hs.
Qed.

Lemma lower_lower (s : string) : lower (lower s) = lower s.
Proof.
  induction s as [| c s IH]; [reflexivity |]. simpl.
  destruct (lower_byte_facts c) as (_ & _ & _ & _ & _ & Hidem).
  now rewrite Hidem, IH.
Qed.

Section NamesNormalized.
Context `{Platform}.

(** The normalization of an ASCII name, step by step. *)
Lemma normalize_ascii (s : string) :
  GoString.isASCII s = true ->
  normalize s
  = lower (remove_byte " " (remove_byte "_" (remove_byte "-"
             (GoString.TrimSpace s)))).
Proof.
  intros Hascii. unfold normalize.
  rewrite (ReplaceAll_byte "-"), (ReplaceAll_byte "_"), (ReplaceAll_byte " ").
  unfold GoString.ToLower.
  destruct (TrimSpace_lower s Hascii) as [_ Htrim].
  rewrite isASCII_remove_byte; [reflexivity |].
  repeat apply isASCII_remove_byte. exact Htrim.
Qed.

Lemma normalize_lower (s : string) :
  GoString.isASCII s = true -> normalize (lower s) = normalize s.
Proof.
  intros Hascii.
  rewrite !normalize_ascii by (rewrite ?isASCII_lower; exact Hascii).
  destruct (TrimSpace_lower s Hascii) as [-> _].
  rewrite !remove_byte_lower by (intros x; apply lower_byte_facts).
  apply lower_lower.
Qed.

(** Preset names of ASCII bytes are matched without regard to case: two
    names that differ only in the case of their letters resolve alike. *)
Theorem parseRulesHelper_ignores_case (r : pointer) (s t : string) (st : store) :
  GoString.isASCII s = true -> GoString.isASCII t = true ->
  lower s = lower t ->
  parseRulesHelper r s st = parseRulesHelper r t st.
Proof.
  intros Hs Ht Heq.
  assert (Hnorm : normalize s = normalize t)
    by (rewrite <- (normalize_lower s Hs), <- (normalize_lower t Ht), Heq;
        reflexivity).
  unfold parseRulesHelper. rewrite Hnorm. reflexivity.
Qed.

End NamesNormalized.

Lemma parseRulesHelper_ignores_case_witness :
  parseRulesHelper (H := example_platform) nil "New Zealand" ∅
  = parseRulesHelper (H := example_platform) nil "NEW ZEALAND" ∅.
Proof.
  apply (parseRulesHelper_ignores_case (H := example_platform)); reflexivity.
Defined.

Lemma remove_byte_comm (a b : ascii) (s : string) :
  remove_byte a (remove_byte b s) = remove_byte b (remove_byte a s).
Proof.
  induction s as [| x s IH]; [reflexivity |]. simpl.
  destruct (Ascii.eqb x b) eqn:Hb, (Ascii.eqb x a) eqn:Ha; simpl;
    rewrite ?Ha, ?Hb, IH; reflexivity.
Qed.

Lemma remove_byte_rev_string (c : ascii) (acc s : string) :
  remove_byte c (GoString.rev_string acc s)
  = GoString.rev_string (remove_byte c acc) (remove_byte c s).
Proof.
  revert acc. induction s as [| x s IH]; intros acc; [reflexivity |].
  simpl. rewrite IH. simpl. destruct (Ascii.eqb x c); reflexivity.
Qed.

Lemma blanks_only_rev_string (acc s : string) :
  blanks_only (GoString.rev_string acc s) = blanks_only acc && blanks_only s.
Proof.
  revert acc. induction s as [| x s IH]; intros acc; simpl.
  - now rewrite andb_true_r.
  - rewrite IH. simpl.
    destruct (negb (GoString.asciiSpace x) || Ascii.eqb x " "),
      (blanks_only acc), (blanks_only s); reflexivity.
Qed.

Lemma rev_string_rev_string (a b s : string) :
  GoString.rev_string a (GoString.rev_string b s)
  = GoString.rev_string (s +:+ a) b.
Proof.
  revert b. induction s as [| x s IH]; intros b; [reflexivity |].
  simpl. rewrite IH. reflexivity.
Qed.

(** Where the blank is the only white space, what the loops of
    [TrimSpace] drop are blanks. *)
Lemma trim_left_ascii_blanks (s r : string) :
  blanks_only s = true -> GoString.trim_left_ascii s = inl r ->
  remove_byte " " r = remove_byte " " s /\ blanks_only r = true.
Proof.
  induction s as [| x s IH]; simpl; intros Hb Hr.
  - injection Hr as <-. split; reflexivity.
  - apply andb_true_iff in Hb as [Hx Hs].
    destruct (GoString.RuneSelf <=? GoString.byte_of x); [discriminate |].
    destruct (GoString.asciiSpace x) eqn:Hsp.
    + simpl in Hx. rewrite Hx. apply IH; assumption.
    + injection Hr as <-. split; [reflexivity |].
      simpl. rewrite Hsp, Hs. reflexivity.
Qed.

Section NamesStripped.
Context `{Platform}.

Lemma trim_right_blanks (s : string) :
  GoString.isASCII s = true -> blanks_only s = true ->
  remove_byte " " (GoString.trim_right s) = remove_byte " " s.
Proof.
  intros Hascii Hb. unfold GoString.trim_right.
  destruct (trim_left_ascii_inl (GoString.rev_string "" s)) as (r & Hr & _).
  { rewrite isASCII_rev_string. exact Hascii. }
  rewrite Hr.
  destruct (trim_left_ascii_blanks (GoString.rev_string "" s) r) as [Hrem _];
    [rewrite blanks_only_rev_string; exact Hb | exact Hr |].
  rewrite remove_byte_rev_string, Hrem, <- remove_byte_rev_string.
  rewrite rev_string_rev_string, append_empty_r. reflexivity.
Qed.

Lemma TrimSpace_blanks (s : string) :
  GoString.isASCII s = true -> blanks_only s = true ->
  remove_byte " " (GoString.TrimSpace s) = remove_byte " " s.
Proof.
  induction s as [| x s IH]; intros Hascii Hb; [reflexivity |].
  pose proof Hascii as Hxs. pose proof Hb as Hbxs.
  simpl in Hascii, Hb.
  apply andb_true_iff in Hascii as [Hx Hs].
  apply andb_true_iff in Hb as [Hbx Hbs].
  apply Z.ltb_lt in Hx.
  simpl GoString.TrimSpace.
  replace (GoString.RuneSelf <=? GoString.byte_of x) with false
    by (symmetry; apply Z.leb_gt; exact Hx).
  destruct (GoString.asciiSpace x) eqn:Hsp.
  - simpl in Hbx. simpl remove_byte. rewrite Hbx. apply IH; assumption.
  - apply (trim_right_blanks (String x s) Hxs Hbxs).
Qed.

(** The normalized form of an ASCII name whose only white space is the
    blank: the name without its hyphens, underscores and blanks, in
    lower case. *)
Lemma normalize_strips (s : string) :
  GoString.isASCII s = true -> blanks_only s = true ->
  normalize s = lower (strip_separators s).
Proof.
  intros Hascii Hb. rewrite (normalize_ascii s Hascii). f_equal.
  unfold strip_separators.
  rewrite (remove_byte_comm " " "_"), (remove_byte_comm " " "-").
  rewrite (TrimSpace_blanks s Hascii Hb).
  rewrite <- (remove_byte_comm " " "-"), <- (remove_byte_comm " " "_").
  reflexivity.
Qed.

(** Hyphens, underscores and blanks count for nothing in a preset name,
    wherever they stand, nor does the case of its letters: two ASCII
    names without tabs or line ends that agree once the separators are
    dropped and the letters lowered resolve alike. *)
Theorem parseRulesHelper_ignores_separators
    (r : pointer) (s t : string) (st : store) :
  GoString.isASCII s = true -> blanks_only s = true ->
  GoString.isASCII t = true -> blanks_only t = true ->
  lower (strip_separators s) = lower (strip_separators t) ->
  parseRulesHelper r s st = parseRulesHelper r t st.
Proof.
  intros Hs Hbs Ht Hbt Heq.
  assert (Hnorm : normalize s = normalize t)
    by (rewrite (normalize_strips s Hs Hbs), (normalize_strips t Ht Hbt);
        exact Heq).
  unfold parseRulesHelper. rewrite Hnorm. reflexivity.
Qed.

(** The separators are dropped after the trimming, so white space that
    a separator shields from the trimming stays: a hyphen, a tab and
    then [chinese] is not the Chinese preset but the default. *)
Lemma parseRulesHelper_shielded_tab (r : pointer) (st : store) :
  parseRulesHelper r (String "-" (String "009" "chinese")) st
  = new TrompTaylorish st.
Proof. reflexivity. Qed.

End NamesStripped.

Lemma parseRulesHelper_ignores_separators_witness :
  parseRulesHelper (H := example_platform) nil " Ancient_Territory " ∅
  = parseRulesHelper (H := example_platform) nil "ancient-territory" ∅.
Proof.
  apply (parseRulesHelper_ignores_separators (H := example_platform));
    reflexivity.
Defined.
